(** * SmolDesk automated security scanner: model and properties

    Shallow embedding of [security/pentest/automated_security_scan.py].

    A Python [str] is the sequence of its code points, a list of numbers;
    a literal is read as UTF-8, so the pictographs of the banners are the
    code points Python prints.

    The scanner mutates [self.results] in place and talks to the outside
    (a websocket, subprocesses, the file system, HTTPS).  The mutation is
    modelled by a state monad whose state survives an exception, the
    outside by a record of oracles, [World], that fixes what every external
    call returns or raises. *)

From Stdlib Require Import List ZArith NArith Lia Bool Arith.
From Stdlib Require Import Strings.Byte.
Import ListNotations.

(** ** Strings *)

(** [str]: code points, each in [range(0x110000)]. *)
Abbreviation str := (list N) (only parsing).

(** *** Literals *)

Inductive literal : Type :=
| LitNil
| LitCons (c : N) (t : literal).

Fixpoint literal_of_str (s : list N) : literal :=
  match s with
  | [] => LitNil
  | c :: t => LitCons c (literal_of_str t)
  end.

Fixpoint str_of_literal (l : literal) : list N :=
  match l with
  | LitNil => []
  | LitCons c t => c :: str_of_literal t
  end.

(** The payload of a UTF-8 continuation byte. *)
Definition utf8_continuation (b : byte) : option N :=
  let n := Byte.to_N b in
  if ((128 <=? n) && (n <? 192))%N then Some (n - 128)%N else None.

Fixpoint utf8_decode (fuel : nat) (bs : list byte) : option (list N) :=
  match fuel, bs with
  | _, [] => Some []
  | O, _ :: _ => None
  | S f, b :: t =>
      let n := Byte.to_N b in
      if (n <? 128)%N then option_map (cons n) (utf8_decode f t)
      else if (n <? 192)%N then None
      else if (n <? 224)%N then
        match t with
        | b1 :: t1 =>
            match utf8_continuation b1 with
            | Some c1 => option_map (cons ((n - 192) * 64 + c1)%N) (utf8_decode f t1)
            | None => None
            end
        | _ => None
        end
      else if (n <? 240)%N then
        match t with
        | b1 :: b2 :: t2 =>
            match utf8_continuation b1, utf8_continuation b2 with
            | Some c1, Some c2 =>
                option_map (cons ((n - 224) * 4096 + c1 * 64 + c2)%N) (utf8_decode f t2)
            | _, _ => None
            end
        | _ => None
        end
      else
        match t with
        | b1 :: b2 :: b3 :: t3 =>
            match utf8_continuation b1, utf8_continuation b2, utf8_continuation b3 with
            | Some c1, Some c2, Some c3 =>
                option_map (cons ((n - 240) * 262144 + c1 * 4096 + c2 * 64 + c3)%N)
                           (utf8_decode f t3)
            | _, _, _ => None
            end
        | _ => None
        end
  end.

Definition read_literal (bs : list byte) : option literal :=
  option_map literal_of_str (utf8_decode (length bs) bs).

Fixpoint printable_bytes (s : list N) : option (list byte) :=
  match s with
  | [] => Some []
  | c :: t =>
      if ((32 <=? c) && (c <=? 126) && negb (c =? 34))%N then
        match Byte.of_N c, printable_bytes t with
        | Some b, Some r => Some (b :: r)
        | _, _ => None
        end
      else None
  end.

Definition show_literal (l : literal) : option (list byte) :=
  printable_bytes (str_of_literal l).

(** The type the literals are declared for. *)
Definition code_points : Type := list N.

Declare Scope str_scope.
Delimit Scope str_scope with str.
#[local] Set Warnings "-via-type-mismatch,-via-type-remapping".
String Notation code_points read_literal show_literal
  (via literal mapping [[nil] => LitNil, [cons] => LitCons]) : str_scope.
Open Scope str_scope.
Open Scope list_scope.

Module Str.

Definition nl : str := [10%N].
Definition dq : str := [34%N].

(** ['..."s"...'] : a double-quoted word inside a Python literal. *)
Definition q (s : str) : str := dq ++ s ++ dq.

(** [c * n] *)
Definition replicate (n : nat) (c : N) : str := repeat c n.

(** [a == b] *)
Fixpoint eqb (a b : str) : bool :=
  match a, b with
  | [], [] => true
  | x :: a', y :: b' => (x =? y)%N && eqb a' b'
  | _, _ => false
  end.

(** [a < b]: by code points, a proper prefix first. *)
Fixpoint ltb (a b : str) : bool :=
  match a, b with
  | _, [] => false
  | [], _ :: _ => true
  | x :: a', y :: b' =>
      if (x <? y)%N then true
      else if (y <? x)%N then false
      else ltb a' b'
  end.

(** [s[:n]] *)
Definition take (n : nat) (s : str) : str := firstn n s.

(** [s[n:]] *)
Definition drop (n : nat) (s : str) : str := skipn n s.

(** [s[-n:]] for [n > 0]: the last [n] characters, or all of [s] when it
    is shorter. *)
Definition take_last (n : nat) (s : str) : str := drop (length s - n) s.

(** The lower-case form of one character: the ASCII and the Latin-1
    capitals, and the two characters beyond them whose lower-case form
    holds an ASCII letter, U+0130 (i with a dot above) and U+212A (the
    Kelvin sign).  The other characters are left as they are: the
    lower-case form of none of them holds an ASCII character, so a search
    for an ASCII word in the result is exact. *)
Definition lower_char (c : N) : str :=
  if (((65 <=? c) && (c <=? 90))
      || ((192 <=? c) && (c <=? 222) && negb (c =? 215)))%N
  then [(c + 32)%N]
  else if (c =? 304)%N then [105%N; 775%N]
  else if (c =? 8490)%N then [107%N]
  else [c].

(** [s.lower()] *)
Definition lower (s : str) : str := flat_map lower_char s.

(** [s.startswith(p)] *)
Fixpoint startswith (p s : str) : bool :=
  match p, s with
  | [], _ => true
  | a :: p', b :: s' => (a =? b)%N && startswith p' s'
  | _ :: _, [] => false
  end.

(** [needle in hay] *)
Fixpoint contains (needle hay : str) : bool :=
  startswith needle hay
  || match hay with
     | [] => false
     | _ :: t => contains needle t
     end.

(** [s.split('\n')[0]] : everything before the first line feed. *)
Fixpoint first_line (s : str) : str :=
  match s with
  | [] => []
  | c :: t => if (c =? 10)%N then [] else c :: first_line t
  end.

(** [s.split('/')] *)
Fixpoint split_slash (s : str) : list str :=
  match s with
  | [] => [[]]
  | c :: t =>
      if (c =? 47)%N then [] :: split_slash t
      else match split_slash t with
           | [] => [[c]]
           | w :: ws => (c :: w) :: ws
           end
  end.

(** ['/'.join(parts)] *)
Fixpoint join_slash (parts : list str) : str :=
  match parts with
  | [] => []
  | [p] => p
  | p :: ps => p ++ "/" ++ join_slash ps
  end.

(** [s.rstrip('/')] *)
Fixpoint rstrip_slash (s : str) : str :=
  match s with
  | [] => []
  | c :: t =>
      match rstrip_slash t with
      | [] => if (c =? 47)%N then [] else [c]
      | t' => c :: t'
      end
  end.

Fixpoint of_uint (d : Decimal.uint) : str :=
  match d with
  | Decimal.Nil => []
  | Decimal.D0 r => 48%N :: of_uint r
  | Decimal.D1 r => 49%N :: of_uint r
  | Decimal.D2 r => 50%N :: of_uint r
  | Decimal.D3 r => 51%N :: of_uint r
  | Decimal.D4 r => 52%N :: of_uint r
  | Decimal.D5 r => 53%N :: of_uint r
  | Decimal.D6 r => 54%N :: of_uint r
  | Decimal.D7 r => 55%N :: of_uint r
  | Decimal.D8 r => 56%N :: of_uint r
  | Decimal.D9 r => 57%N :: of_uint r
  end.

(** [str(n)] for an [int]. *)
Definition of_Z (n : Z) : str :=
  match n with
  | Z0 => "0"
  | Zpos p => of_uint (Pos.to_uint p)
  | Zneg p => "-" ++ of_uint (Pos.to_uint p)
  end.

Definition oct_digit (d : N) : N := (48 + d)%N.

(** The octal digits of [n], most significant first, pushed in front of
    [acc]; [fuel] bounds the number of digits. *)
Fixpoint oct_digits (fuel : nat) (n : N) (acc : str) : str :=
  match fuel with
  | O => acc
  | S f =>
      let acc' := oct_digit (n mod 8) :: acc in
      if (n / 8 =? 0)%N then acc' else oct_digits f (n / 8) acc'
  end.

(** [oct(n)] for [n >= 0]. *)
Definition oct (n : N) : str :=
  "0o" ++ oct_digits (S (N.size_nat n)) n [].

End Str.

(** ** Exceptions *)

(** The exception classes the program raises, catches or can receive from
    the libraries it calls.  [KeyboardInterrupt] and [SystemExit] derive
    from [BaseException] only; every other class derives from
    [Exception]. *)
Inductive exc_class : Type :=
| KeyboardInterrupt
| SystemExit (code : Z)
| AsyncioTimeoutError          (* asyncio.TimeoutError, raised by wait_for *)
| TimeoutExpired               (* subprocess.TimeoutExpired *)
| FileNotFoundError
| PermissionError
| RuntimeError
| NameError
| TypeError
| KeyError
| RequestException             (* requests.exceptions.RequestException *)
| ConnectionClosed             (* websockets.exceptions.ConnectionClosed *)
| OtherException.

Record exc : Type := mkExc { exc_cls : exc_class; exc_str : str }.

(** [isinstance(e, Exception)] *)
Definition is_Exception (e : exc) : bool :=
  match exc_cls e with
  | KeyboardInterrupt | SystemExit _ => false
  | _ => true
  end.

Definition is_KeyboardInterrupt (e : exc) : bool :=
  match exc_cls e with KeyboardInterrupt => true | _ => false end.

Definition is_AsyncioTimeoutError (e : exc) : bool :=
  match exc_cls e with AsyncioTimeoutError => true | _ => false end.

Definition is_TimeoutExpired (e : exc) : bool :=
  match exc_cls e with TimeoutExpired => true | _ => false end.

Definition is_FileNotFoundError (e : exc) : bool :=
  match exc_cls e with FileNotFoundError => true | _ => false end.

Definition is_RequestException (e : exc) : bool :=
  match exc_cls e with RequestException => true | _ => false end.

(** ** The aggregate result *)

(** A Python [dict] from [str] to [str], in insertion order. *)
Definition pydict : Type := list (str * str).

Fixpoint dict_get (k : str) (d : pydict) : option str :=
  match d with
  | [] => None
  | (k', v) :: t => if Str.eqb k k' then Some v else dict_get k t
  end.

(** [k in d] *)
Definition dict_has (k : str) (d : pydict) : bool :=
  match dict_get k d with Some _ => true | None => false end.

(** [self.results]: a dict with the four fixed keys.  The entries of
    ["vulnerabilities"] are dicts, those of the other three buckets are plain
    strings. *)
Record Results : Type := mkResults {
  vulnerabilities : list pydict;
  warnings : list str;
  info : list str;
  passed : list str
}.

Definition empty_results : Results := mkResults [] [] [] [].

Definition add_vulnerability (v : pydict) (r : Results) : Results :=
  mkResults (vulnerabilities r ++ [v]) (warnings r) (info r) (passed r).
Definition add_warning (s : str) (r : Results) : Results :=
  mkResults (vulnerabilities r) (warnings r ++ [s]) (info r) (passed r).
Definition add_info (s : str) (r : Results) : Results :=
  mkResults (vulnerabilities r) (warnings r) (info r ++ [s]) (passed r).
Definition add_passed (s : str) (r : Results) : Results :=
  mkResults (vulnerabilities r) (warnings r) (info r) (passed r ++ [s]).

(** ** The outside world *)

(** What [websocket.recv()] returns: a [str] for a text frame, [bytes] for
    a binary frame. *)
Inductive message : Type :=
| Text (data : str)
| Binary (data : list N).

(** What every external call of the program returns or raises.  A value of
    type [A + exc] is a returned [A] ([inl]) or a raised exception ([inr]);
    [option exc] is the outcome of a call made for its effect only. *)
Record World : Type := mkWorld {
  (** [websockets.connect(uri)] entered by [async with] *)
  ws_connect : str -> option exc;
  (** [websocket.send(payload)] *)
  ws_send : str -> option exc;
  (** [asyncio.wait_for(websocket.recv(), timeout=2)] after [payload] was
      sent: a text or a binary frame, [asyncio.TimeoutError], or another
      exception *)
  ws_recv : str -> message + exc;
  (** [subprocess.run(argv, capture_output=True, text=True, timeout=5)]:
      return code and standard output *)
  subprocess_run : list str -> (Z * str) + exc;
  (** the home directory [os.path.expanduser] finds for the current user *)
  env_home : option str;
  (** [Path.exists()] on the path with this string form *)
  path_exists : str -> bool + exc;
  (** [Path.stat().st_mode] *)
  path_st_mode : str -> N + exc;
  (** [requests.get(url, timeout=5, verify=False).status_code] *)
  requests_get : str -> Z + exc;
  (** [sock.connect((host, port))] on a TLS-wrapped socket *)
  tls_connect : str -> Z -> option exc;
  (** [sock.version()] of the connected socket *)
  tls_version : str -> Z -> option str;
  (** [open(path, 'w')] *)
  open_write : str -> option exc;
  (** [json.dump(obj, f, indent=2)] of the text [content] into the file
      opened at [path], and the close that ends the [with] block: [None]
      when all of the text reaches the file, [Some (n, e)] when only its
      first [n] characters do and [e] is raised *)
  file_write : str -> str -> option (nat * exc)
}.

(** ** The process state and the monad of the program *)

Record Scanner : Type := mkScanner {
  target_host : str;
  target_port : Z;
  results : Results
}.

(** [SmolDeskSecurityScanner.__init__] *)
Definition new_scanner (host : str) (port : Z) : Scanner :=
  mkScanner host port empty_results.

(** The files the program can write to, by path, with what each holds. *)
Definition Files : Type := list (str * str).

Fixpoint file_get (path : str) (fs : Files) : option str :=
  match fs with
  | [] => None
  | (q, content) :: t => if Str.eqb q path then Some content else file_get path t
  end.

(** The file at [path] holds [content]: it is created, or what it held is
    replaced. *)
Fixpoint file_set (path content : str) (fs : Files) : Files :=
  match fs with
  | [] => [(path, content)]
  | (q, c) :: t =>
      if Str.eqb q path then (q, content) :: t else (q, c) :: file_set path content t
  end.

Record Process : Type := mkProcess {
  scanner : Scanner;
  stdout : list str;              (* the argument of every [print], in order *)
  files : Files
}.

(** A computation returns a value or raises; the state reached is kept in
    both cases. *)
Definition M (A : Type) : Type := Process -> Process * (A + exc).

Definition ret {A} (a : A) : M A := fun p => (p, inl a).

Definition bind {A B} (c : M A) (k : A -> M B) : M B :=
  fun p =>
    match c p with
    | (p', inl a) => k a p'
    | (p', inr e) => (p', inr e)
    end.

Definition raise {A} (e : exc) : M A := fun p => (p, inr e).

Declare Scope py_scope.
Delimit Scope py_scope with py.
Notation "x <- c1 ;; c2" := (bind c1 (fun x => c2))
  (at level 61, c1 at next level, right associativity) : py_scope.
Notation "c1 ;; c2" := (bind c1 (fun _ => c2))
  (at level 61, right associativity) : py_scope.
Local Open Scope py_scope.

(** [try: body except ...: handler].  [handler e] is [None] when no
    [except] clause matches [e], which then propagates. *)
Definition try_except {A} (body : M A) (handler : exc -> option (M A)) : M A :=
  fun p =>
    match body p with
    | (p', inl a) => (p', inl a)
    | (p', inr e) =>
        match handler e with
        | Some h => h p'
        | None => (p', inr e)
        end
    end.

(** [for x in l: body(x)] *)
Fixpoint for_each {A} (l : list A) (body : A -> M unit) : M unit :=
  match l with
  | [] => ret tt
  | x :: t => body x ;; for_each t body
  end.

(** [if c: body] *)
Definition when (c : bool) (body : M unit) : M unit :=
  if c then body else ret tt.

(** An external call that returns a value or raises. *)
Definition call {A} (r : A + exc) : M A :=
  match r with inl a => ret a | inr e => raise e end.

(** An external call made for its effect. *)
Definition call_ (r : option exc) : M unit :=
  match r with None => ret tt | Some e => raise e end.

(** The process after the file at [path] was given [content]. *)
Definition written (path content : str) (p : Process) : Process :=
  mkProcess (scanner p) (stdout p) (file_set path content (files p)).

Definition write_file (path content : str) : M unit :=
  fun p => (written path content p, inl tt).

Definition self_target_host : M str := fun p => (p, inl (target_host (scanner p))).
Definition self_target_port : M Z := fun p => (p, inl (target_port (scanner p))).
Definition self_results : M Results := fun p => (p, inl (results (scanner p))).

(** The process after [self.results] was changed by [f]. *)
Definition map_results (f : Results -> Results) (p : Process) : Process :=
  let s := scanner p in
  mkProcess (mkScanner (target_host s) (target_port s) (f (results s)))
            (stdout p) (files p).

(** The process after the lines [ls] were printed. *)
Definition printed (ls : list str) (p : Process) : Process :=
  mkProcess (scanner p) (stdout p ++ ls) (files p).

Definition update_results (f : Results -> Results) : M unit :=
  fun p => (map_results f p, inl tt).

Definition print (s : str) : M unit :=
  fun p => (printed [s] p, inl tt).

(** [self.results["..."].append(x)] *)
Definition append_vulnerability (v : pydict) : M unit := update_results (add_vulnerability v).
Definition append_warning (s : str) : M unit := update_results (add_warning s).
Definition append_info (s : str) : M unit := update_results (add_info s).
Definition append_passed (s : str) : M unit := update_results (add_passed s).

(** [d[k]], raising [KeyError] when [k] is absent. *)
Definition getitem (d : pydict) (k : str) : M str :=
  match dict_get k d with
  | Some v => ret v
  | None => raise (mkExc KeyError ("'" ++ k ++ "'"))
  end.

(** ** [pathlib] on POSIX *)

Module Pathlib.

(** A path is a root (empty, ["/"] or ["//"]) and its components. *)
Record Path : Type := mkPath { root : str; parts : list str }.

Definition keep_component (c : str) : bool :=
  negb (Str.eqb c "" || Str.eqb c ".").

(** [Path(s)]: empty and ["."] components are dropped; exactly two
    leading slashes are kept as the root. *)
Definition parse (s : str) : Path :=
  let r :=
    if Str.startswith "//" s && negb (Str.startswith "///" s) then "//"
    else if Str.startswith "/" s then "/"
    else "" in
  mkPath r (filter keep_component (Str.split_slash s)).

(** [str(path)] *)
Definition to_str (p : Path) : str :=
  match root p, parts p with
  | [], [] => "."
  | r, ps => r ++ Str.join_slash ps
  end.

(** [os.path.expanduser(first)] for a first component that begins with a
    tilde.  ["~"] is the home directory of the current user (without
    trailing slashes, ["/"] when nothing is left); the model has no
    password database, so a ["~name"] component and an unknown home are
    returned unchanged. *)
Definition os_path_expanduser (w : World) (first : str) : str :=
  if Str.eqb first "~" then
    match env_home w with
    | None => first
    | Some h =>
        match Str.rstrip_slash h with
        | [] => "/"
        | h' => h'
        end
    end
  else first.

(** [Path.expanduser()] *)
Definition expanduser (w : World) (p : Path) : Path + exc :=
  match root p, parts p with
  | [], first :: rest =>
      if Str.startswith "~" first then
        let homedir := os_path_expanduser w first in
        if Str.startswith "~" homedir
        then inr (mkExc RuntimeError "Could not determine home directory.")
        else
          let h := parse homedir in
          inl (mkPath (root h) (parts h ++ rest))
      else inl p
  | _, _ => inl p
  end.

End Pathlib.

(** ** The scanner *)

(** [x in l] for a list of strings. *)
Definition str_in (x : str) (l : list str) : bool := existsb (Str.eqb x) l.

(** The names bound at module level when a method runs: the imports of the
    file, its class and its function.  No builtin is called [socket]. *)
Definition module_globals : list str :=
  ["asyncio"; "json"; "ssl"; "websockets"; "requests"; "subprocess"; "sys";
   "Path"; "argparse"; "SmolDeskSecurityScanner"; "main"].

(** Evaluation of a global name. *)
Definition load_global (name : str) : M unit :=
  if str_in name module_globals then ret tt
  else raise (mkExc NameError ("name '" ++ name ++ "' is not defined")).

Definition malicious_payloads : list str :=
  [ "{" ++ Str.q "type" ++ ": " ++ Str.q "create-room" ++ ", "
        ++ Str.q "roomId" ++ ": " ++ Str.q "../../../etc/passwd" ++ "}";
    "{" ++ Str.q "type" ++ ": " ++ Str.q "join-room" ++ ", "
        ++ Str.q "roomId" ++ ": " ++ Str.q "<script>alert(1)</script>" ++ "}";
    ("{" ++ Str.q "type" ++ ": " ++ Str.dq)
        ++ Str.replicate (N.to_nat 10000) 65%N ++ (Str.dq ++ "}");
    "{" ++ Str.q "type" ++ ": null}";
    "not-json-data" ].

(** The dict appended for a payload the server did not reject. *)
Definition input_validation_finding (payload : str) : pydict :=
  [ ("type", "Input Validation");
    ("payload", Str.take 100 payload);
    ("description", "Server accepts malicious input without proper validation") ].

(** The body of the loop over the payloads. *)
Definition probe_payload (w : World) (payload : str) : M unit :=
  call_ (ws_send w payload) ;;
  try_except
    (response <- call (ws_recv w payload) ;;
     match response with
     | Text data =>
         when (negb (Str.contains "error" (Str.lower data)))
              (append_vulnerability (input_validation_finding payload))
     | Binary _ =>
         (* ["error" not in response.lower()] on [bytes] *)
         raise (mkExc TypeError "a bytes-like object is required, not 'str'")
     end)
    (fun e => if is_AsyncioTimeoutError e then Some (ret tt) else None).

Definition scan_signaling_server (w : World) : M unit :=
  print "🔍 Scanning Signaling Server..." ;;
  host <- self_target_host ;;
  port <- self_target_port ;;
  let uri := "ws://" ++ host ++ ":" ++ Str.of_Z port in
  try_except
    (call_ (ws_connect w uri) ;;
     for_each malicious_payloads (probe_payload w) ;;
     append_passed "WebSocket connection established successfully")
    (fun e =>
       if is_Exception e
       then Some (append_warning ("Could not connect to signaling server: " ++ exc_str e))
       else None).

Definition dependencies : list (str * str) :=
  [ ("ffmpeg", "CVE database check needed");
    ("xdotool", "Input injection vector");
    ("ydotool", "Privilege escalation potential");
    ("wl-clipboard", "Clipboard data leakage");
    ("xclip", "X11 security context") ].

Definition probe_dependency (w : World) (entry : str * str) : M unit :=
  let (dep, risk) := entry in
  try_except
    (result <- call (subprocess_run w [dep; "--version"]) ;;
     let (returncode, out) := (result : Z * str) in
     if (returncode =? 0)%Z then
       let version := Str.first_line out in
       append_info (dep ++ ": " ++ version ++ " - Risk: " ++ risk)
     else append_info (dep ++ ": Not found"))
    (fun e =>
       if is_TimeoutExpired e || is_FileNotFoundError e
       then Some (append_info (dep ++ ": Not available"))
       else None).

Definition scan_system_dependencies (w : World) : M unit :=
  print "🔍 Scanning System Dependencies..." ;;
  for_each dependencies (probe_dependency w).

Definition critical_files : list str :=
  [ "/opt/smoldesk/smoldesk";
    "/usr/bin/smoldesk";
    "/etc/smoldesk/";
    "~/.local/share/smoldesk/" ].

(** [oct(stat_info.st_mode)[-3:]] *)
Definition mode_of (st_mode : N) : str := Str.take_last 3 (Str.oct st_mode).

Definition file_permissions_finding (path mode : str) : pydict :=
  [ ("type", "File Permissions");
    ("file", path);
    ("permissions", mode);
    ("description", "File has overly permissive permissions") ].

(** The branch taken for a path that exists. *)
Definition classify_mode (path mode : str) : M unit :=
  if str_in mode ["777"; "776"; "666"] then
    append_vulnerability (file_permissions_finding path mode)
  else if str_in mode ["755"; "644"] then
    append_passed (path ++ ": Safe permissions (" ++ mode ++ ")")
  else
    append_warning (path ++ ": Unusual permissions (" ++ mode ++ ")").

(** The body of the loop over the checked paths. *)
Definition probe_file (w : World) (file_path : str) : M unit :=
  expanded_path <- call (Pathlib.expanduser w (Pathlib.parse file_path)) ;;
  let path := Pathlib.to_str expanded_path in
  found <- call (path_exists w path) ;;
  when found
    (st_mode <- call (path_st_mode w path) ;;
     classify_mode path (mode_of st_mode)).

Definition scan_file_permissions (w : World) : M unit :=
  print "🔍 Scanning File Permissions..." ;;
  for_each critical_files (probe_file w).

Definition tls_finding (protocol : str) : pydict :=
  [ ("type", "TLS Configuration");
    ("protocol", protocol);
    ("description", "Weak TLS version in use") ].

(** The [with context.wrap_socket(socket.socket(), ...)] block.  Its first
    step evaluates the global name [socket]. *)
Definition inspect_tls (w : World) (host : str) (port : Z) : M unit :=
  load_global "socket" ;;
  call_ (tls_connect w host port) ;;
  match tls_version w host port with
  | None =>
      raise (mkExc TypeError
               "'<' not supported between instances of 'NoneType' and 'str'")
  | Some protocol =>
      if Str.ltb protocol "TLSv1.2"
      then append_vulnerability (tls_finding protocol)
      else append_passed ("TLS version: " ++ protocol)
  end.

Definition scan_network_security (w : World) : M unit :=
  print "🔍 Scanning Network Security..." ;;
  host <- self_target_host ;;
  port <- self_target_port ;;
  let https_url := "https://" ++ host ++ ":" ++ Str.of_Z port in
  try_except
    (status_code <- call (requests_get w https_url) ;;
     when (status_code =? 200)%Z
          (append_warning "HTTPS endpoint responds but certificate not verified") ;;
     inspect_tls w host port)
    (fun e =>
       if is_RequestException e then Some (append_info "No HTTPS endpoint found")
       else if is_Exception e then Some (append_info ("TLS scan failed: " ++ exc_str e))
       else None).

Definition weak_passwords : list str :=
  ["password"; "123456"; "admin"; "smoldesk"; "password123"; "qwerty"; ""; "test"].

Definition scan_authentication_security : M unit :=
  print "🔍 Scanning Authentication Security..." ;;
  let _unused := weak_passwords in
  append_info "Authentication testing requires running instance".

(** ** The report *)

(** [len(vulnerabilities) * 10 + len(warnings) * 3] *)
Definition risk_score (r : Results) : Z :=
  Z.of_nat (length (vulnerabilities r)) * 10 + Z.of_nat (length (warnings r)) * 3.

Inductive Tier : Type := Low | Medium | High.

(** The [if risk_score == 0 / elif risk_score < 20 / else] cascade. *)
Definition risk_tier (score : Z) : Tier :=
  if (score =? 0)%Z then Low
  else if (score <? 20)%Z then Medium
  else High.

Definition tier_banner (t : Tier) : str :=
  match t with
  | Low => "   🟢 LOW RISK"
  | Medium => "   🟡 MEDIUM RISK"
  | High => "   🔴 HIGH RISK"
  end.

Definition nonempty {A} (l : list A) : bool :=
  match l with [] => false | _ => true end.

Definition rule : str := Str.replicate 60 61%N.

Definition report_vulnerability (vuln : pydict) : M unit :=
  ty <- getitem vuln "type" ;;
  description <- getitem vuln "description" ;;
  print ("  ❌ " ++ ty ++ ": " ++ description) ;;
  when (dict_has "file" vuln)
    (file <- getitem vuln "file" ;;
     let permissions :=
       match dict_get "permissions" vuln with Some m => m | None => "N/A" end in
     print ("     File: " ++ file ++ " (Permissions: " ++ permissions ++ ")")) ;;
  when (dict_has "payload" vuln)
    (payload <- getitem vuln "payload" ;;
     print ("     Payload: " ++ payload)).

Definition generate_report : M unit :=
  print (Str.nl ++ rule) ;;
  print "🛡️  SMOLDESK SECURITY SCAN RESULTS" ;;
  print rule ;;
  r <- self_results ;;
  (if nonempty (vulnerabilities r) then
     print (Str.nl ++ "🚨 VULNERABILITIES FOUND:") ;;
     for_each (vulnerabilities r) report_vulnerability
   else print (Str.nl ++ "✅ No critical vulnerabilities found")) ;;
  when (nonempty (warnings r))
    (print (Str.nl ++ "⚠️  WARNINGS:") ;;
     for_each (warnings r) (fun warning => print ("  🔶 " ++ warning))) ;;
  when (nonempty (info r))
    (print (Str.nl ++ "ℹ️  INFORMATIONAL:") ;;
     for_each (info r) (fun i => print ("  💡 " ++ i))) ;;
  when (nonempty (passed r))
    (print (Str.nl ++ "✅ PASSED CHECKS:") ;;
     for_each (passed r) (fun p => print ("  ✅ " ++ p))) ;;
  let score := risk_score r in
  print (Str.nl ++ "📊 RISK SCORE: " ++ Str.of_Z score) ;;
  print (tier_banner (risk_tier score)) ;;
  print (Str.nl ++ "💡 RECOMMENDATIONS:") ;;
  when (nonempty (vulnerabilities r))
    (print "  1. Address all critical vulnerabilities immediately") ;;
  when (nonempty (warnings r))
    (print "  2. Review and mitigate warnings where possible") ;;
  print "  3. Run this scan regularly as part of CI/CD" ;;
  print "  4. Consider professional penetration testing" ;;
  print "  5. Keep all dependencies updated" ;;
  print (Str.nl ++ rule).

(** ** The scan and the command *)

Definition run_scan (w : World) : M unit :=
  print "🛡️  Starting SmolDesk Security Scan..." ;;
  scan_signaling_server w ;;
  scan_system_dependencies w ;;
  scan_file_permissions w ;;
  scan_network_security w ;;
  scan_authentication_security ;;
  generate_report.

(** ** The [json] module, on the values the program serializes *)

Module Json.

#[local] Set Warnings "-register-all".

(** The Python values [json.dump] is given and [json.load] gives back here:
    strings, lists and dicts with string keys (an association list in
    insertion order). *)
Inductive value : Type :=
| JStr (s : str)
| JList (l : list value)
| JDict (d : list (str * value)).

Definition of_pydict (d : pydict) : value :=
  JDict (map (fun kv => (fst kv, JStr (snd kv))) d).

(** [scanner.results] as a Python value. *)
Definition of_results (r : Results) : value :=
  JDict [ ("vulnerabilities", JList (map of_pydict (vulnerabilities r)));
          ("warnings", JList (map JStr (warnings r)));
          ("info", JList (map JStr (info r)));
          ("passed", JList (map JStr (passed r))) ].

(** *** Encoder ([ensure_ascii=True], [indent=2]) *)

Definition hex_digit (n : N) : N :=
  if (n <? 10)%N then (48 + n)%N else (87 + n)%N.

(** ['\\u{0:04x}'.format(n)], for [n < 0x10000]. *)
Definition escape_u (n : N) : str :=
  "\u" ++ [ hex_digit (n / 4096); hex_digit ((n / 256) mod 16);
            hex_digit ((n / 16) mod 16); hex_digit (n mod 16) ]%N.

(** The replacement of one character: the short escapes of [ESCAPE_DCT],
    the printable ASCII characters as they are, [\uXXXX] for the other
    characters of the basic plane, and the escapes of the two surrogates
    for a character beyond it. *)
Definition escape_char (c : N) : str :=
  if (c =? 34)%N then "\" ++ Str.dq
  else if (c =? 92)%N then "\\"
  else if (c =? 10)%N then "\n"
  else if (c =? 13)%N then "\r"
  else if (c =? 9)%N then "\t"
  else if (c =? 8)%N then "\b"
  else if (c =? 12)%N then "\f"
  else if ((32 <=? c) && (c <=? 126))%N then [c]
  else if (c <? 65536)%N then escape_u c
  else
    let n := (c - 65536)%N in
    let s1 := N.lor 55296 (N.land (N.shiftr n 10) 1023) in
    let s2 := N.lor 56320 (N.land n 1023) in
    escape_u s1 ++ escape_u s2.

(** [ESCAPE_ASCII.sub(replace, s)] *)
Definition escape (s : str) : str := flat_map escape_char s.

(** [encode_basestring_ascii] *)
Definition encode_string (s : str) : str := Str.dq ++ escape s ++ Str.dq.

(** A line feed and the indentation of nesting depth [level]. *)
Definition newline_indent (level : nat) : str :=
  Str.nl ++ Str.replicate (2 * level) 32%N.

Fixpoint items_tail (level : nat) (items : list str) : str :=
  match items with
  | [] => []
  | x :: xs => "," ++ newline_indent level ++ x ++ items_tail level xs
  end.

(** A container at depth [level] whose encoded items are [items]. *)
Definition bracket (opening closing : str) (level : nat) (items : list str) : str :=
  match items with
  | [] => opening ++ closing
  | x :: xs =>
      opening ++ newline_indent (S level) ++ x ++ items_tail (S level) xs
              ++ newline_indent level ++ closing
  end.

Fixpoint dumps_at (level : nat) (v : value) : str :=
  match v with
  | JStr s => encode_string s
  | JList l => bracket "[" "]" level (map (dumps_at (S level)) l)
  | JDict d =>
      bracket "{" "}" level
        (map (fun kv => encode_string (fst kv) ++ ": " ++ dumps_at (S level) (snd kv)) d)
  end.

(** The text [json.dump(obj, f, indent=2)] writes. *)
Definition dumps (v : value) : str := dumps_at 0 v.

(** *** Decoder *)

Definition is_ws (c : N) : bool :=
  ((c =? 32) || (c =? 9) || (c =? 10) || (c =? 13))%N.

Fixpoint skip_ws (s : str) : str :=
  match s with
  | c :: t => if is_ws c then skip_ws t else s
  | [] => s
  end.

Definition hex_value (c : N) : option N :=
  if ((48 <=? c) && (c <=? 57))%N then Some (c - 48)%N
  else if ((97 <=? c) && (c <=? 102))%N then Some (c - 87)%N
  else if ((65 <=? c) && (c <=? 70))%N then Some (c - 55)%N
  else None.

Definition hex4 (a b c d : N) : option N :=
  match hex_value a, hex_value b, hex_value c, hex_value d with
  | Some x, Some y, Some z, Some t => Some (x * 4096 + y * 256 + z * 16 + t)%N
  | _, _, _, _ => None
  end.

(** The [BACKSLASH] table of the decoder. *)
Definition unescape (e : N) : option N :=
  if (e =? 34)%N then Some e
  else if (e =? 92)%N then Some e
  else if (e =? 47)%N then Some e
  else if (e =? 98)%N then Some 8%N
  else if (e =? 102)%N then Some 12%N
  else if (e =? 110)%N then Some 10%N
  else if (e =? 114)%N then Some 13%N
  else if (e =? 116)%N then Some 9%N
  else None.

Definition cons_char (c : N) (r : option (str * str)) : option (str * str) :=
  match r with
  | Some (s, rest) => Some (c :: s, rest)
  | None => None
  end.

Definition is_high_surrogate (c : N) : bool := ((55296 <=? c) && (c <=? 56319))%N.
Definition is_low_surrogate (c : N) : bool := ((56320 <=? c) && (c <=? 57343))%N.

(** [0x10000 + (((uni - 0xd800) << 10) | (uni2 - 0xdc00))] *)
Definition join_surrogates (uni uni2 : N) : N :=
  (65536 + N.lor (N.shiftl (uni - 55296) 10) (uni2 - 56320))%N.

(** [scanstring] in strict mode, started after the opening quote: the
    decoded string and the text after the closing quote; [None] is a
    [JSONDecodeError].  The escape of a high surrogate that is directly
    followed by the escape of a low surrogate is read with it, as one
    character. *)
Fixpoint scanstring (s : str) : option (str * str) :=
  match s with
  | [] => None
  | c :: rest =>
      if (c =? 34)%N then Some ([], rest)
      else if (c =? 92)%N then
        match rest with
        | [] => None
        | e :: rest1 =>
            if (e =? 117)%N then
              match rest1 with
              | h1 :: h2 :: h3 :: h4 :: rest2 =>
                  match hex4 h1 h2 h3 h4 with
                  | None => None
                  | Some uni =>
                      match rest2 with
                      | b :: u :: g1 :: g2 :: g3 :: g4 :: rest3 =>
                          if (is_high_surrogate uni && (b =? 92) && (u =? 117))%N then
                            match hex4 g1 g2 g3 g4 with
                            | None => None
                            | Some uni2 =>
                                if is_low_surrogate uni2
                                then cons_char (join_surrogates uni uni2) (scanstring rest3)
                                else cons_char uni (scanstring rest2)
                            end
                          else cons_char uni (scanstring rest2)
                      | _ => cons_char uni (scanstring rest2)
                      end
                  end
              | _ => None
              end
            else
              match unescape e with
              | Some ch => cons_char ch (scanstring rest1)
              | None => None
              end
        end
      else if (c <? 32)%N then None
      else cons_char c (scanstring rest)
  end.

(** The parser of one value, given to the loops over array elements and
    object members. *)
Definition parser : Type := str -> option (value * str).

(** The elements of an array after the first was found to be there:
    [pv] reads a value, then a comma continues and a bracket ends.  [n]
    bounds the number of elements. *)
Fixpoint parse_items (pv : parser) (n : nat) (s : str) : option (list value * str) :=
  match n with
  | O => None
  | S n' =>
      match pv s with
      | None => None
      | Some (v, r) =>
          match skip_ws r with
          | c :: r1 =>
              if (c =? 44)%N then
                match parse_items pv n' (skip_ws r1) with
                | Some (vs, rest) => Some (v :: vs, rest)
                | None => None
                end
              else if (c =? 93)%N then Some ([v], r1)
              else None
          | [] => None
          end
      end
  end.

(** [JSONArray], started after the opening bracket. *)
Definition parse_array (pv : parser) (n : nat) (s : str) : option (value * str) :=
  match skip_ws s with
  | [] => None
  | (c :: r) as s1 =>
      if (c =? 93)%N then Some (JList [], r)
      else match parse_items pv n s1 with
           | Some (vs, rest) => Some (JList vs, rest)
           | None => None
           end
  end.

(** The members of an object: a quoted key, a colon, a value, then a comma
    or the closing brace. *)
Fixpoint parse_pairs (pv : parser) (n : nat) (s : str)
  : option (list (str * value) * str) :=
  match n with
  | O => None
  | S n' =>
      match s with
      | c :: r0 =>
          if (c =? 34)%N then
            match scanstring r0 with
            | None => None
            | Some (k, r) =>
                match skip_ws r with
                | c1 :: r1 =>
                    if (c1 =? 58)%N then
                      match pv (skip_ws r1) with
                      | None => None
                      | Some (v, r2) =>
                          match skip_ws r2 with
                          | c2 :: r3 =>
                              if (c2 =? 44)%N then
                                match parse_pairs pv n' (skip_ws r3) with
                                | Some (kvs, rest) => Some ((k, v) :: kvs, rest)
                                | None => None
                                end
                              else if (c2 =? 125)%N then Some ([(k, v)], r3)
                              else None
                          | [] => None
                          end
                      end
                    else None
                | [] => None
                end
            end
          else None
      | [] => None
      end
  end.

(** [d[k] = v] on an association list: an existing key keeps its place. *)
Fixpoint dict_set (k : str) (v : value) (d : list (str * value))
  : list (str * value) :=
  match d with
  | [] => [(k, v)]
  | (k', v') :: t =>
      if Str.eqb k k' then (k', v) :: t else (k', v') :: dict_set k v t
  end.

(** [dict(pairs)] *)
Definition dict_of_pairs (pairs : list (str * value)) : list (str * value) :=
  fold_left (fun d kv => dict_set (fst kv) (snd kv) d) pairs [].

(** [JSONObject], started after the opening brace. *)
Definition parse_object (pv : parser) (n : nat) (s : str) : option (value * str) :=
  match skip_ws s with
  | [] => None
  | (c :: r) as s1 =>
      if (c =? 125)%N then Some (JDict [], r)
      else match parse_pairs pv n s1 with
           | Some (kvs, rest) => Some (JDict (dict_of_pairs kvs), rest)
           | None => None
           end
  end.

(** The scanner of one value: a string, an array or an object.  Numbers
    and the literals [true], [false] and [null] do not occur in what the
    program writes and are not read.  [fuel] bounds the nesting and the
    number of elements of a container. *)
Fixpoint parse_value (fuel : nat) (s : str) : option (value * str) :=
  match fuel with
  | O => None
  | S f =>
      match s with
      | [] => None
      | c :: r =>
          if (c =? 34)%N then
            match scanstring r with
            | Some (text, rest) => Some (JStr text, rest)
            | None => None
            end
          else if (c =? 91)%N then parse_array (parse_value f) f r
          else if (c =? 123)%N then parse_object (parse_value f) f r
          else None
      end
  end.

(** [json.loads]: one value between optional white space, and nothing
    else. *)
Definition loads (s : str) : option value :=
  match parse_value (length s) (skip_ws s) with
  | Some (v, rest) =>
      match skip_ws rest with
      | [] => Some v
      | _ :: _ => None
      end
  | None => None
  end.

(** The number of nodes of a value. *)
Fixpoint size (v : value) : nat :=
  match v with
  | JStr _ => 1
  | JList l => S (list_sum (map size l))
  | JDict d => S (list_sum (map (fun kv => size (snd kv)) d))
  end.

(** A string the decoder gives back as it was: its code points are in
    [range(0x110000)], as those of every [str] are, and no high surrogate
    stands directly before a low surrogate.  Text decoded from bytes holds
    no surrogate at all. *)
Fixpoint restorable (s : str) : bool :=
  match s with
  | [] => true
  | c :: t =>
      (c <? 1114112)%N
      && negb (is_high_surrogate c
               && match t with d :: _ => is_low_surrogate d | [] => false end)
      && restorable t
  end.

(** A value whose strings are restorable and whose dicts have distinct
    keys, as those of every [dict] are. *)
Inductive well_formed : value -> Prop :=
| wf_str (s : str) : restorable s = true -> well_formed (JStr s)
| wf_list (l : list value) : Forall well_formed l -> well_formed (JList l)
| wf_dict (d : list (str * value)) :
    NoDup (map fst d) ->
    Forall (fun kv => restorable (fst kv) = true /\ well_formed (snd kv)) d ->
    well_formed (JDict d).

End Json.

(** ** The command *)

(** The parsed command line: [--host], [--port] (an [int]) and
    [--output]. *)
Record Args : Type := mkArgs {
  host : str;
  port : Z;
  output : option str
}.

Definition default_args : Args := mkArgs "localhost" 3000 None.

(** Truth value of [args.output]. *)
Definition output_given (a : Args) : option str :=
  match output a with
  | Some [] => None
  | o => o
  end.

(** [sys.exit(code)] *)
Definition sys_exit (code : Z) : M unit := raise (mkExc (SystemExit code) []).

(** [json.dump(scanner.results, f, indent=2)] and the end of the [with]
    block: the text, or the part of it that got through, is in the file. *)
Definition dump_and_close (w : World) (path text : str) : M unit :=
  match file_write w path text with
  | None => write_file path text
  | Some (n, e) => write_file path (Str.take n text) ;; raise e
  end.

(** The [try] block of [main].  [open(path, 'w')] leaves an empty file at
    the path, new or emptied, before anything is written to it. *)
Definition main_body (w : World) (args : Args) : M unit :=
  run_scan w ;;
  match output_given args with
  | Some path =>
      call_ (open_write w path) ;;
      write_file path [] ;;
      r <- self_results ;;
      dump_and_close w path (Json.dumps (Json.of_results r)) ;;
      print (Str.nl ++ "Results saved to " ++ path)
  | None => ret tt
  end.

Definition main (w : World) (args : Args) : M unit :=
  try_except (main_body w args)
    (fun e =>
       if is_KeyboardInterrupt e then
         Some (print (Str.nl ++ "Scan interrupted by user") ;; sys_exit 1)
       else if is_Exception e then
         Some (print (Str.nl ++ "Scan failed: " ++ exc_str e) ;; sys_exit 1)
       else None).

(** The exit status of the interpreter: 0 when the program returns, the
    code of a [SystemExit], 1 for any other uncaught exception. *)
Definition exit_status (outcome : unit + exc) : Z :=
  match outcome with
  | inl _ => 0
  | inr e => match exc_cls e with SystemExit code => code | _ => 1 end
  end.

(** The process in which [main] starts: the scanner is built from the
    arguments, nothing is printed yet. *)
Definition initial_process (args : Args) : Process :=
  mkProcess (new_scanner (host args) (port args)) [] [].

(** A run of the command: the final state and the exit status. *)
Definition run_main (w : World) (args : Args) : Process * Z :=
  let (p, outcome) := main w args (initial_process args) in
  (p, exit_status outcome).

(** ** Concrete worlds *)

Definition connection_refused : exc :=
  mkExc OtherException "[Errno 111] Connect call failed ('127.0.0.1', 3000)".

Definition no_such_file : exc :=
  mkExc FileNotFoundError "[Errno 2] No such file or directory".

(** Nothing listens on the target, one dependency is installed, two of the
    checked paths exist. *)
Definition unreachable_world : World :=
  mkWorld
    (fun _ => Some connection_refused)
    (fun _ => None)
    (fun _ => inr (mkExc AsyncioTimeoutError []))
    (fun argv =>
       match argv with
       | dep :: _ =>
           if Str.eqb dep "ffmpeg"
           then inl (0%Z, "ffmpeg version 6.0" ++ Str.nl ++ "built with gcc")
           else if Str.eqb dep "xclip" then inl (1%Z, [])
           else inr no_such_file
       | [] => inr no_such_file
       end)
    (Some "/home/user")
    (fun path => inl (Str.eqb path "/usr/bin/smoldesk" || Str.eqb path "/etc/smoldesk"))
    (fun path => inl (if Str.eqb path "/usr/bin/smoldesk" then 33261%N else 16822%N))
    (fun _ => inr (mkExc RequestException "Max retries exceeded"))
    (fun _ _ => None)
    (fun _ _ => Some "TLSv1.3")
    (fun _ => None)
    (fun _ _ => None).

(** The world [w] with another signaling server. *)
Definition with_signaling (connect send : str -> option exc) (recv : str -> message + exc)
    (w : World) : World :=
  mkWorld connect send recv (subprocess_run w) (env_home w) (path_exists w)
    (path_st_mode w) (requests_get w) (tls_connect w) (tls_version w)
    (open_write w) (file_write w).

(** The world [w] with another HTTPS endpoint. *)
Definition with_https (get : str -> Z + exc) (w : World) : World :=
  mkWorld (ws_connect w) (ws_send w) (ws_recv w) (subprocess_run w) (env_home w)
    (path_exists w) (path_st_mode w) get (tls_connect w) (tls_version w)
    (open_write w) (file_write w).

(** The world [w] with another file system under the checked paths. *)
Definition with_paths (exists_ : str -> bool + exc) (st_mode : str -> N + exc)
    (w : World) : World :=
  mkWorld (ws_connect w) (ws_send w) (ws_recv w) (subprocess_run w) (env_home w)
    exists_ st_mode (requests_get w) (tls_connect w) (tls_version w)
    (open_write w) (file_write w).

(** The world [w] with other tools installed. *)
Definition with_tools (run : list str -> (Z * str) + exc) (w : World) : World :=
  mkWorld (ws_connect w) (ws_send w) (ws_recv w) run (env_home w)
    (path_exists w) (path_st_mode w) (requests_get w) (tls_connect w) (tls_version w)
    (open_write w) (file_write w).

(** The world [w] with another outcome of writing the output file. *)
Definition with_output (open : str -> option exc)
    (write : str -> str -> option (nat * exc)) (w : World) : World :=
  mkWorld (ws_connect w) (ws_send w) (ws_recv w) (subprocess_run w) (env_home w)
    (path_exists w) (path_st_mode w) (requests_get w) (tls_connect w) (tls_version w)
    open write.

(** A signaling server that echoes every payload in a text frame, and an
    HTTPS endpoint that answers 200. *)
Definition echo_world : World :=
  with_https (fun _ => inl 200%Z)
    (with_signaling (fun _ => None) (fun _ => None) (fun payload => inl (Text payload))
       unreachable_world).

(** A signaling server that answers every payload with the two bytes
    [b'ok'] in a binary frame. *)
Definition binary_world : World :=
  with_signaling (fun _ => None) (fun _ => None) (fun _ => inl (Binary [111%N; 107%N]))
    unreachable_world.

(** The same server, answering with the text [ok]. *)
Definition text_world : World :=
  with_signaling (fun _ => None) (fun _ => None) (fun _ => inl (Text "ok"))
    unreachable_world.

(** A signaling server that accepts the connection and the first payload,
    then closes the connection instead of answering. *)
Definition dropping_world : World :=
  with_signaling (fun _ => None) (fun _ => None)
    (fun _ => inr (mkExc ConnectionClosed "no close frame received or sent"))
    unreachable_world.

(** The first checked path cannot be examined: [/opt/smoldesk] is not
    searchable by the user who runs the scan. *)
Definition denied_world : World :=
  with_paths
    (fun path =>
       if Str.eqb path "/opt/smoldesk/smoldesk"
       then inr (mkExc PermissionError
                   "[Errno 13] Permission denied: '/opt/smoldesk/smoldesk'")
       else inl false)
    (path_st_mode unreachable_world)
    unreachable_world.

(** The user interrupts the scan while the signaling probe waits for the
    answer to its first payload: the wait is cancelled and
    [asyncio.run] ends with [KeyboardInterrupt]. *)
Definition interrupted_world : World :=
  with_signaling (fun _ => None) (fun _ => None)
    (fun _ => inr (mkExc KeyboardInterrupt []))
    unreachable_world.

(** [ffmpeg] is found on the search path, but the user who runs the scan
    may not execute it. *)
Definition unexecutable_world : World :=
  with_tools
    (fun argv =>
       match argv with
       | dep :: _ =>
           if Str.eqb dep "ffmpeg"
           then inr (mkExc PermissionError "[Errno 13] Permission denied: 'ffmpeg'")
           else inr no_such_file
       | [] => inr no_such_file
       end)
    unreachable_world.

(** The scan runs as in [unreachable_world], but the output file cannot be
    opened for writing. *)
Definition readonly_world : World :=
  with_output
    (fun path => Some (mkExc PermissionError
                         ("[Errno 13] Permission denied: '" ++ path ++ "'")))
    (fun _ _ => None)
    unreachable_world.

(** The scan runs as in [unreachable_world] and the output file is opened,
    but the disk is full after the first 40 characters. *)
Definition full_disk_world : World :=
  with_output (fun _ => None)
    (fun _ _ => Some (40%nat, mkExc OtherException "[Errno 28] No space left on device"))
    unreachable_world.

(** The worst target: the signaling server echoes every payload, all four
    checked paths exist with mode 777, and the HTTPS endpoint answers
    200. *)
Definition worst_world : World :=
  with_paths (fun _ => inl true) (fun _ => inl 33279%N) echo_world.

(** ** Notions used in the statements *)

(** [c] returns normally, and all it does is print. *)
Definition prints (c : M unit) : Prop :=
  forall p, exists ls, c p = (printed ls p, inl tt).

(** On a process whose results are [r], the computation [c] prints the
    lines [mid] somewhere in its output, returns normally, and does nothing
    but print. *)
Definition prints_around (r : Results) (mid : list str) (c : M unit) : Prop :=
  forall p, results (scanner p) = r ->
    exists before after, c p = (printed (before ++ mid ++ after) p, inl tt).

(** Every entry of the vulnerability bucket has the two keys the report
    reads without a default. *)
Definition reportable (r : Results) : Prop :=
  Forall (fun d => dict_get "type" d <> None /\ dict_get "description" d <> None)
         (vulnerabilities r).

(** The server answered [payload] in time with a text frame that does not
    hold the word [error], in any letter case. *)
Definition accepted (w : World) (payload : str) : bool :=
  match ws_recv w payload with
  | inl (Text response) => negb (Str.contains "error" (Str.lower response))
  | _ => false
  end.

(** The exchange for [payload] ends with a text frame or with the time-out
    of the wait: the payload is sent, the answer is not a binary frame, and
    nothing but [asyncio.TimeoutError] is raised while waiting. *)
Definition completes (w : World) (payload : str) : Prop :=
  ws_send w payload = None
  /\ match ws_recv w payload with
     | inl (Text _) => True
     | inl (Binary _) => False
     | inr e => is_AsyncioTimeoutError e = true
     end.

(** The URI the signaling probe connects to. *)
Definition signaling_uri (p : Process) : str :=
  "ws://" ++ target_host (scanner p) ++ ":" ++ Str.of_Z (target_port (scanner p)).

(** [c] moves every process to one related to it by [R], whether it returns
    or raises. *)
Definition preserves {A} (R : Process -> Process -> Prop) (c : M A) : Prop :=
  forall p, R p (fst (c p)).

(** [l'] is [l] with entries added at the end. *)
Definition grows {A} (l l' : list A) : Prop := exists added, l' = (l ++ added)%list.

(** Nothing is taken back: the target is the same, the output and the four
    buckets have only grown, and no file has gone. *)
Definition extends (p p' : Process) : Prop :=
  target_host (scanner p') = target_host (scanner p)
  /\ target_port (scanner p') = target_port (scanner p)
  /\ grows (stdout p) (stdout p')
  /\ grows (map fst (files p)) (map fst (files p'))
  /\ grows (vulnerabilities (results (scanner p))) (vulnerabilities (results (scanner p')))
  /\ grows (warnings (results (scanner p))) (warnings (results (scanner p')))
  /\ grows (info (results (scanner p))) (info (results (scanner p')))
  /\ grows (passed (results (scanner p))) (passed (results (scanner p'))).

(** The keys of every vulnerability entry are distinct, as those of a
    [dict] are. *)
Definition distinct_keys (r : Results) : Prop :=
  Forall (fun d : pydict => NoDup (map fst d)) (vulnerabilities r).

(** Distinct keys are kept. *)
Definition keeps_distinct_keys (p p' : Process) : Prop :=
  distinct_keys (results (scanner p)) -> distinct_keys (results (scanner p')).

(** *** The JSON text of a string *)

(** How one character is written: as a short escape, as itself, as a
    [\uXXXX] escape, or as the escapes of its two surrogates. *)
Inductive written_as (c : N) : str -> Prop :=
| as_short (x : N) :
    x <> 117%N -> Json.unescape x = Some c -> written_as c [92%N; x]
| as_itself :
    c <> 34%N -> c <> 92%N -> (32 <= c)%N -> written_as c [c]
| as_escape :
    (c < 65536)%N -> written_as c (Json.escape_u c)
| as_pair (n : N) :
    c = (65536 + n)%N -> (n < 1048576)%N ->
    written_as c (Json.escape_u (55296 + n / 1024)
                    ++ Json.escape_u (56320 + n mod 1024)).

(** The escape of a high surrogate is read as that surrogate when what
    follows it does not begin with the escape of a low surrogate. *)
Definition leaves_high (tail : str) : Prop :=
  forall n, (n < 65536)%N -> Json.is_high_surrogate n = true ->
    Json.scanstring (Json.escape_u n ++ tail) = Json.cons_char n (Json.scanstring tail).

(** Every string of the results, key or value, is restorable. *)
Definition restorable_results (r : Results) : bool :=
  forallb (forallb (fun kv : str * str =>
                      Json.restorable (fst kv) && Json.restorable (snd kv)))
          (vulnerabilities r)
  && forallb Json.restorable (warnings r)
  && forallb Json.restorable (info r)
  && forallb Json.restorable (passed r).

(** An encoded value starts with a quote, a bracket or a brace. *)
Definition starts_value (s : str) : Prop :=
  exists c t, s = c :: t /\ (c = 34 \/ c = 91 \/ c = 123)%N.

(** The list under key [k] of a dict value. *)
Definition bucket (k : str) (v : Json.value) : option (list Json.value) :=
  match v with
  | Json.JDict d =>
      match find (fun kv => Str.eqb (fst kv) k) d with
      | Some (_, Json.JList l) => Some l
      | _ => None
      end
  | _ => None
  end.

Definition has_key (k : str) (d : list (str * Json.value)) : bool :=
  existsb (fun kv => Str.eqb (fst kv) k) d.

(** An object carrying a category, a description and an evidence
    mapping. *)
Definition finding_object (v : Json.value) : bool :=
  match v with
  | Json.JDict d =>
      has_key "category" d && has_key "description" d
      && match find (fun kv => Str.eqb (fst kv) "evidence") d with
         | Some (_, Json.JDict _) => true
         | _ => false
         end
  | _ => false
  end.

(** The artifact has four buckets, each a sequence of such objects. *)
Definition buckets_of_finding_objects (v : Json.value) : bool :=
  forallb (fun k => match bucket k v with
                    | Some l => forallb finding_object l
                    | None => false
                    end)
          ["vulnerabilities"; "warnings"; "info"; "passed"].

Definition is_str (v : Json.value) : bool :=
  match v with Json.JStr _ => true | _ => false end.

(** An object whose values are all strings. *)
Definition flat_object (v : Json.value) : bool :=
  match v with
  | Json.JDict d => forallb (fun kv => is_str (snd kv)) d
  | _ => false
  end.

(** The artifact as the program writes it: the vulnerability bucket is a
    sequence of flat objects, the other three are sequences of strings. *)
Definition buckets_as_written (v : Json.value) : bool :=
  match bucket "vulnerabilities" v, bucket "warnings" v, bucket "info" v,
        bucket "passed" v with
  | Some vs, Some ws, Some ns, Some ps =>
      forallb flat_object vs && forallb is_str ws
      && forallb is_str ns && forallb is_str ps
  | _, _, _, _ => false
  end.

(** The files a computation leaves are those it found. *)
Definition same_files (p p' : Process) : Prop := files p' = files p.

(** *** The file permission probe, by the mode bits *)

(** A finding and the bucket it goes to. *)
Inductive Finding : Type :=
| Vulnerability (entry : pydict)
| Warning (text : str)
| Info (text : str)
| Passed (text : str).


(** What looking at one path of the registry gives: the path after
    expansion, with its [st_mode] when it exists; or the exception raised on
    the way. *)
Definition examination (w : World) (file_path : str) : (str * option N) + exc :=
  match Pathlib.expanduser w (Pathlib.parse file_path) with
  | inr e => inr e
  | inl expanded =>
      let path := Pathlib.to_str expanded in
      match path_exists w path with
      | inr e => inr e
      | inl false => inl (path, None)
      | inl true =>
          match path_st_mode w path with
          | inr e => inr e
          | inl st_mode => inl (path, Some st_mode)
          end
      end
  end.

(** The paths the probe reaches: those before the first whose examination
    raises. *)
Fixpoint reached (w : World) (l : list str) : list (str * option N) :=
  match l with
  | [] => []
  | f :: t =>
      match examination w f with
      | inl x => x :: reached w t
      | inr _ => []
      end
  end.

(** The nine permission bits as three octal digits. *)
Definition octal3 (bits : N) : str :=
  [48 + bits / 64; 48 + (bits / 8) mod 8; 48 + bits mod 8]%N.

(** The finding prescribed for a path that exists, by the permission bits
    of its mode: 777, 776 and 666 are unsafe, 755 and 644 are safe, every
    other mode is unusual. *)
Definition prescribed (path : str) (st_mode : N) : Finding :=
  let bits := (st_mode mod 512)%N in
  if existsb (N.eqb bits) [511; 510; 438]%N then
    Vulnerability [ ("type", "File Permissions");
                    ("file", path);
                    ("permissions", octal3 bits);
                    ("description", "File has overly permissive permissions") ]
  else if existsb (N.eqb bits) [493; 420]%N then
    Passed (path ++ ": Safe permissions (" ++ octal3 bits ++ ")")
  else
    Warning (path ++ ": Unusual permissions (" ++ octal3 bits ++ ")").




(** *** The outcome of the command *)

(** The artifact, when one is asked for, is written in full after the scan
    left the process [p1]. *)
Definition artifact_written (w : World) (args : Args) (p1 : Process) : Prop :=
  match output_given args with
  | None => True
  | Some path =>
      open_write w path = None
      /\ file_write w path (Json.dumps (Json.of_results (results (scanner p1)))) = None
  end.

(** [a] begins [b]. *)
Definition prefix_of {A} (a b : list A) : Prop := exists rest, b = a ++ rest.

(** ** Notions used in the further properties *)

(** The scanner and the files are the same; only the output may differ. *)
Definition untouched (p p' : Process) : Prop :=
  scanner p' = scanner p /\ files p' = files p.

(** Reportable results stay reportable. *)
Definition keeps_reportable (p p' : Process) : Prop :=
  reportable (results (scanner p)) -> reportable (results (scanner p')).

(** The part of [run_scan] before the report: the banner and the five
    probes, in order. *)
Definition scan_probes (w : World) : M unit :=
  (print "🛡️  Starting SmolDesk Security Scan..." ;;
   scan_signaling_server w ;;
   scan_system_dependencies w ;;
   scan_file_permissions w ;;
   scan_network_security w ;;
   scan_authentication_security)%py.

(** The score line and the tier line of the report for the results [r]. *)
Definition score_lines (r : Results) : list str :=
  [ Str.nl ++ "📊 RISK SCORE: " ++ Str.of_Z (risk_score r);
    tier_banner (risk_tier (risk_score r)) ].

(** On a process whose results are [r], the outcome of [c] satisfies
    [P]. *)
Definition outcome_spec (r : Results) (P : unit + exc -> Prop) (c : M unit) : Prop :=
  forall p, results (scanner p) = r -> P (snd (c p)).

(** The outcome of printing the findings of [r]: normal exactly when [r]
    is reportable, and [KeyError] otherwise. *)
Definition report_outcome (r : Results) (o : unit + exc) : Prop :=
  (o = inl tt <-> reportable r)
  /\ (forall e, o = inr e -> exc_cls e = KeyError).

(** The Info text the dependency probe records for an entry of its
    registry, by what running [dep --version] gave. *)
Definition dependency_finding (w : World) (entry : str * str) : str :=
  match subprocess_run w [fst entry; "--version"] with
  | inl (returncode, out) =>
      if (returncode =? 0)%Z
      then fst entry ++ ": " ++ Str.first_line out ++ " - Risk: " ++ snd entry
      else fst entry ++ ": Not found"
  | inr _ => fst entry ++ ": Not available"
  end.

(** Running [dep --version] returns, times out, or finds no such file. *)
Definition dependency_handled (w : World) (entry : str * str) : Prop :=
  match subprocess_run w [fst entry; "--version"] with
  | inl _ => True
  | inr e => is_TimeoutExpired e || is_FileNotFoundError e = true
  end.

(** Only the info bucket and the output may differ. *)
Definition only_info_added (p p' : Process) : Prop :=
  target_host (scanner p') = target_host (scanner p)
  /\ target_port (scanner p') = target_port (scanner p)
  /\ files p' = files p
  /\ vulnerabilities (results (scanner p')) = vulnerabilities (results (scanner p))
  /\ warnings (results (scanner p')) = warnings (results (scanner p))
  /\ passed (results (scanner p')) = passed (results (scanner p))
  /\ grows (info (results (scanner p))) (info (results (scanner p'))).

(** The vulnerability entry holds, under "payload", at most 100 characters
    that begin one of the probe's payloads. *)
Definition bounded_payload_evidence (v : pydict) : Prop :=
  exists payload,
    In payload malicious_payloads
    /\ dict_get "payload" v = Some (Str.take 100 payload)
    /\ (length (Str.take 100 payload) <= 100)%nat.

(** A File Permissions entry whose mode is one of the three the probe
    holds unsafe. *)
Definition unsafe_mode_finding (v : pydict) : Prop :=
  exists path mode,
    v = file_permissions_finding path mode
    /\ str_in mode ["777"; "776"; "666"] = true.

(** The file permission probe has examined at most [n] paths between [p]
    and [p']: at most [n] findings were added, none of them an Info
    finding, every added vulnerability is an unsafe-mode entry, and the
    target, the output and the files are as before. *)
Definition examined_at_most (n : nat) (p p' : Process) : Prop :=
  target_host (scanner p') = target_host (scanner p)
  /\ target_port (scanner p') = target_port (scanner p)
  /\ stdout p' = stdout p
  /\ files p' = files p
  /\ info (results (scanner p')) = info (results (scanner p))
  /\ exists vs ws ps,
       vulnerabilities (results (scanner p'))
       = (vulnerabilities (results (scanner p)) ++ vs)
       /\ warnings (results (scanner p')) = (warnings (results (scanner p)) ++ ws)
       /\ passed (results (scanner p')) = (passed (results (scanner p)) ++ ps)
       /\ (length vs + length ws + length ps <= n)%nat
       /\ Forall unsafe_mode_finding vs.

(** Printable ASCII, or a line feed. *)
Definition plain_char (c : N) : bool :=
  (((32 <=? c) && (c <=? 126)) || (c =? 10))%N.

Definition plain_ascii (s : str) : bool := forallb plain_char s.

(** The order of the tiers. *)
Definition tier_rank (t : Tier) : nat :=
  match t with Low => 0 | Medium => 1 | High => 2 end.

(** The info bucket is as before. *)
Definition same_info (p p' : Process) : Prop :=
  info (results (scanner p')) = info (results (scanner p)).

(** The Info finding the network probe leaves. *)
Definition network_info (i : str) : Prop :=
  i = "No HTTPS endpoint found"
  \/ exists reason, i = "TLS scan failed: " ++ reason.

(** Between [p] and [p'] the signaling probe went through at most [n]
    payloads: it added at most [n] vulnerability entries and nothing else
    to the results; when it stopped with an exception, one fewer. *)
Definition sent_at_most (n : nat) (o : unit + exc) (p p' : Process) : Prop :=
  warnings (results (scanner p')) = warnings (results (scanner p))
  /\ exists vs,
       vulnerabilities (results (scanner p'))
       = (vulnerabilities (results (scanner p)) ++ vs)
       /\ (length vs <= n)%nat
       /\ (forall e, o = inr e -> (length vs < n)%nat).

(** * Properties *)

(** ** The library functions of the model, on examples *)

Example literal_example :
  ("é€" : str) = [233; 8364]%N /\ ("🔍" : str) = [128269]%N.
Proof. split; reflexivity. Qed.

Example lower_example :
  Str.lower "Error: INVALID" = "error: invalid"
  /\ Str.lower [201; 8490; 937]%N = [233; 107; 937]%N.
Proof. split; reflexivity. Qed.

Example contains_example :
  Str.contains "error" (Str.lower "{ERROR}") = true
  /\ Str.contains "error" (Str.lower "erro r") = false.
Proof. split; reflexivity. Qed.

Example oct_example :
  Str.oct 33206 = "0o100666" /\ Str.oct 0 = "0o0" /\ Str.oct 16877 = "0o40755".
Proof. repeat split; reflexivity. Qed.

Example take_last_example :
  Str.take_last 3 (Str.oct 33206) = "666" /\ Str.take_last 3 "ab" = "ab".
Proof. split; reflexivity. Qed.

Example of_Z_example :
  Str.of_Z 3000 = "3000" /\ Str.of_Z 0 = "0" /\ Str.of_Z (-7) = "-7".
Proof. repeat split; reflexivity. Qed.

Example split_slash_example :
  Str.split_slash "/etc/smoldesk/" = [""; "etc"; "smoldesk"; ""]
  /\ Str.rstrip_slash "/home/u//" = "/home/u".
Proof. split; reflexivity. Qed.

Example path_examples :
  map (fun s => Pathlib.to_str (Pathlib.parse s))
      ["/etc/smoldesk/"; "//a/./b//c/"; ""; "///x"; "~/.local/share/smoldesk/"]
  = ["/etc/smoldesk"; "//a/b/c"; "."; "/x"; "~/.local/share/smoldesk"].
Proof. reflexivity. Qed.

Example tls_order_example :
  Str.ltb "TLSv1" "TLSv1.2" = true
  /\ Str.ltb "TLSv1.3" "TLSv1.2" = false
  /\ Str.ltb "SSLv3" "TLSv1.2" = true.
Proof. repeat split; reflexivity. Qed.

Example encode_string_example :
  Json.encode_string ("a" ++ Str.dq ++ "\" ++ Str.nl ++ [127; 233; 8364; 128512]%N)
  = Str.dq ++ "a\" ++ Str.dq ++ "\\\n\u007f\u00e9\u20ac\ud83d\ude00" ++ Str.dq.
Proof. reflexivity. Qed.

Example dumps_example :
  Json.dumps (Json.of_results
                (add_info "b" (add_info "a"
                   (add_vulnerability [("type", "T"); ("description", "d")]
                      empty_results))))
  = "{" ++ Str.nl
    ++ "  " ++ Str.q "vulnerabilities" ++ ": [" ++ Str.nl
    ++ "    {" ++ Str.nl
    ++ "      " ++ Str.q "type" ++ ": " ++ Str.q "T" ++ "," ++ Str.nl
    ++ "      " ++ Str.q "description" ++ ": " ++ Str.q "d" ++ Str.nl
    ++ "    }" ++ Str.nl
    ++ "  ]," ++ Str.nl
    ++ "  " ++ Str.q "warnings" ++ ": []," ++ Str.nl
    ++ "  " ++ Str.q "info" ++ ": [" ++ Str.nl
    ++ "    " ++ Str.q "a" ++ "," ++ Str.nl
    ++ "    " ++ Str.q "b" ++ Str.nl
    ++ "  ]," ++ Str.nl
    ++ "  " ++ Str.q "passed" ++ ": []" ++ Str.nl
    ++ "}".
Proof. reflexivity. Qed.

Example loads_example :
  Json.loads ("  [ " ++ Str.q "xA\/€😀" ++ " , {" ++ Str.q "k" ++ " : []} ]"
                ++ Str.nl)
  = Some (Json.JList [Json.JStr ("xA/" ++ [8364; 128512]%N);
                      Json.JDict [("k", Json.JList [])]]).
Proof. reflexivity. Qed.

(** A high surrogate and a low surrogate that stand side by side in a
    string are read back as the one character they encode: such a string
    is not restorable. *)
Example split_pair_is_joined :
  Json.loads (Json.dumps (Json.JStr [55357; 56832]%N)) = Some (Json.JStr [128512]%N)
  /\ Json.restorable [55357; 56832]%N = false
  /\ Json.loads (Json.dumps (Json.JStr [55357; 65]%N)) = Some (Json.JStr [55357; 65]%N).
Proof. repeat split; reflexivity. Qed.

Local Open Scope py_scope.
Local Open Scope Z_scope.

(** ** The risk scorer *)

(** C1: the risk score is ten times the number of vulnerability findings
    plus three times the number of warning findings; the tier is Low exactly
    for score 0, Medium exactly for a score strictly between 0 and 20, High
    exactly for a score of 20 or more (19 is Medium, 20 is High); a Passed
    or an Info finding leaves the score as it is. *)
Theorem risk_score_and_tier : forall r : Results,
  risk_score r
    = 10 * Z.of_nat (length (vulnerabilities r)) + 3 * Z.of_nat (length (warnings r))
  /\ (risk_tier (risk_score r) = Low <-> risk_score r = 0)
  /\ (risk_tier (risk_score r) = Medium <-> 0 < risk_score r < 20)
  /\ (risk_tier (risk_score r) = High <-> 20 <= risk_score r)
  /\ risk_tier 19 = Medium
  /\ risk_tier 20 = High
  /\ (forall s, risk_score (add_passed s r) = risk_score r)
  /\ (forall s, risk_score (add_info s r) = risk_score r).
Proof.
  intros r.
  assert (Hnn : 0 <= risk_score r) by (unfold risk_score; lia).
  split; [unfold risk_score; lia|].
  unfold risk_tier.
  destruct (Z.eqb_spec (risk_score r) 0) as [H0|H0];
    destruct (Z.ltb_spec (risk_score r) 20) as [H20|H20];
    repeat split; intros; try discriminate; try reflexivity; try lia.
Qed.

(** ** Computations that only print *)

Lemma printed_printed (l1 l2 : list str) (p : Process) :
  printed l2 (printed l1 p) = printed (l1 ++ l2) p.
Proof. unfold printed; simpl. now rewrite app_assoc. Qed.

Lemma printed_nil (p : Process) : printed [] p = p.
Proof. destruct p; unfold printed; simpl. now rewrite app_nil_r. Qed.

Lemma prints_ret : prints (ret tt).
Proof. intros p. exists []. now rewrite printed_nil. Qed.

Lemma prints_print (s : str) : prints (print s).
Proof. intros p. now exists [s]. Qed.

Lemma prints_seq (c : M unit) (k : M unit) :
  prints c -> prints k -> prints (c ;; k).
Proof.
  intros Hc Hk p. destruct (Hc p) as [l1 E1].
  destruct (Hk (printed l1 p)) as [l2 E2].
  exists (l1 ++ l2). unfold bind. now rewrite E1, E2, printed_printed.
Qed.

Lemma prints_when (b : bool) (c : M unit) : prints c -> prints (when b c).
Proof. destruct b; simpl; auto using prints_ret. Qed.

Lemma prints_for_each {A} (l : list A) (f : A -> M unit) :
  (forall x, In x l -> prints (f x)) -> prints (for_each l f).
Proof.
  induction l as [|x t IH]; intros H; simpl.
  - apply prints_ret.
  - apply prints_seq; [apply H; now left|].
    apply IH. intros y Hy. apply H. now right.
Qed.

Lemma prints_getitem (d : pydict) (k : str) (body : str -> M unit) :
  dict_get k d <> None ->
  (forall v, prints (body v)) ->
  prints (v <- getitem d k ;; body v).
Proof.
  intros Hk Hb p. unfold bind, getitem.
  destruct (dict_get k d) as [v|]; [|congruence].
  apply Hb.
Qed.

Lemma prints_report_vulnerability (vuln : pydict) :
  dict_get "type" vuln <> None ->
  dict_get "description" vuln <> None ->
  prints (report_vulnerability vuln).
Proof.
  intros Ht Hd. unfold report_vulnerability.
  apply prints_getitem; [assumption|intros ty].
  apply prints_getitem; [assumption|intros descr].
  repeat apply prints_seq; try apply prints_print.
  - unfold dict_has. destruct (dict_get "file" vuln) eqn:E; simpl.
    + apply prints_getitem; [congruence|]. intros f. apply prints_print.
    + apply prints_ret.
  - unfold dict_has. destruct (dict_get "payload" vuln) eqn:E; simpl.
    + apply prints_getitem; [congruence|]. intros f. apply prints_print.
    + apply prints_ret.
Qed.

Lemma around_seq (r : Results) (mid : list str) (c k : M unit) :
  prints c -> prints_around r mid k -> prints_around r mid (c ;; k).
Proof.
  intros Hc Hk p Hp. destruct (Hc p) as [l1 E1].
  destruct (Hk (printed l1 p) Hp) as (b & a & E2).
  exists (l1 ++ b), a. unfold bind. rewrite E1, E2, printed_printed.
  now rewrite <- app_assoc.
Qed.

Lemma around_self_results (r : Results) (mid : list str) (body : Results -> M unit) :
  prints_around r mid (body r) ->
  prints_around r mid (r' <- self_results ;; body r').
Proof.
  intros Hb p Hp. unfold bind, self_results. rewrite Hp. now apply Hb.
Qed.

Lemma around_here (r : Results) (s1 s2 : str) (k : M unit) :
  prints k -> prints_around r [s1; s2] (print s1 ;; print s2 ;; k).
Proof.
  intros Hk p _. destruct (Hk (printed [s1; s2] p)) as [l E].
  exists [], l. unfold bind, print. rewrite !printed_printed. simpl app.
  rewrite E, printed_printed. reflexivity.
Qed.

(** The report prints the score of C1 and the banner of its tier, one
    after the other, and changes nothing else. *)
Lemma generate_report_prints_score (r : Results) :
  reportable r ->
  prints_around r
    [(Str.nl ++ "📊 RISK SCORE: " ++ Str.of_Z (risk_score r));
     tier_banner (risk_tier (risk_score r))]
    generate_report.
Proof.
  intros Hr. unfold generate_report.
  do 3 (apply around_seq; [apply prints_print|]).
  apply around_self_results.
  apply around_seq.
  { destruct (nonempty (vulnerabilities r)).
    - apply prints_seq; [apply prints_print|].
      apply prints_for_each. intros d Hd.
      unfold reportable in Hr. rewrite Forall_forall in Hr.
      destruct (Hr d Hd). now apply prints_report_vulnerability.
    - apply prints_print. }
  do 3 (apply around_seq;
        [apply prints_when, prints_seq;
         [apply prints_print | apply prints_for_each; intros; apply prints_print]|]).
  cbv zeta. apply around_here.
  repeat (apply prints_seq || apply prints_print || apply prints_when).
Qed.

(** ** The authentication probe *)

(** C10: the authentication probe consults nothing outside the process (it
    is not given the world), appends exactly one Info finding with the fixed
    text, and leaves the other buckets alone; the outcome is the same for
    every host and port, and the list of weak passwords plays no part. *)
Theorem authentication_probe_is_constant : forall p : Process,
  scan_authentication_security p
    = (map_results (add_info "Authentication testing requires running instance")
         (printed ["🔍 Scanning Authentication Security..."] p), inl tt)
  /\ (let r' := results (scanner (fst (scan_authentication_security p))) in
      let r := results (scanner p) in
      info r' = (info r ++ ["Authentication testing requires running instance"])
      /\ vulnerabilities r' = vulnerabilities r
      /\ warnings r' = warnings r
      /\ passed r' = passed r)
  /\ (forall h1 h2 n1 n2 out1 out2 fs1 fs2,
        results (scanner (fst (scan_authentication_security
                                 (mkProcess (mkScanner h1 n1 (results (scanner p))) out1 fs1))))
        = results (scanner (fst (scan_authentication_security
                                   (mkProcess (mkScanner h2 n2 (results (scanner p))) out2 fs2))))).
Proof.
  intros p. repeat split.
Qed.

(** ** The network probe *)

(** The name [socket] is not bound when the TLS block runs. *)
Lemma socket_is_unbound (p : Process) :
  load_global "socket" p = (p, inr (mkExc NameError "name 'socket' is not defined")).
Proof. reflexivity. Qed.

(** The TLS block raises [NameError] before it touches the network. *)
Lemma inspect_tls_raises (w : World) (h : str) (n : Z) (p : Process) :
  inspect_tls w h n p = (p, inr (mkExc NameError "name 'socket' is not defined")).
Proof. reflexivity. Qed.

(** C9: the network probe never adds a Vulnerability or a Passed finding,
    whatever the target answers: the TLS block stops at the unbound name
    [socket].  It adds at most one Warning; unless the HTTPS request is
    cut short by an exception outside [Exception] (an interrupt), it returns
    normally and adds exactly one Info finding, which is the fixed
    [NameError] text whenever the HTTPS request got an answer. *)
Theorem network_probe_findings : forall (w : World) (p : Process),
  let url := ("https://" ++ target_host (scanner p) ++ ":"
                ++ Str.of_Z (target_port (scanner p))) in
  let r := results (scanner p) in
  let r' := results (scanner (fst (scan_network_security w p))) in
  vulnerabilities r' = vulnerabilities r
  /\ passed r' = passed r
  /\ (warnings r' = warnings r
      \/ warnings r'
         = (warnings r ++ ["HTTPS endpoint responds but certificate not verified"]))
  /\ ((forall e, requests_get w url = inr e -> is_Exception e = true) ->
      snd (scan_network_security w p) = inl tt
      /\ exists i, info r' = (info r ++ [i])
           /\ (i = "No HTTPS endpoint found"
               \/ exists reason, i = ("TLS scan failed: " ++ reason)))
  /\ (forall status, requests_get w url = inl status ->
      info r' = (info r ++ ["TLS scan failed: name 'socket' is not defined"])).
Proof.
  intros w p url r r'. subst r'.
  unfold scan_network_security, bind, print, self_target_host, self_target_port,
    try_except, call.
  cbn [scanner printed target_host target_port fst snd].
  fold url.
  destruct (requests_get w url) as [status|e] eqn:Hget.
  - unfold ret, when.
    destruct (status =? 200); cbn;
      (split; [reflexivity|]); (split; [reflexivity|]);
      (split; [first [now left | now right]|]);
      (split; [|intros ? _; reflexivity]);
      intros _; (split; [reflexivity|]);
      eexists; (split; [reflexivity|]); right; now eexists.
  - unfold raise.
    destruct (is_RequestException e) eqn:Hre; [|destruct (is_Exception e) eqn:Hex];
      cbn;
      (split; [reflexivity|]); (split; [reflexivity|]);
      (split; [now left|]);
      (split; [|intros ? ?; discriminate]).
    + intros _. split; [reflexivity|]. eexists. split; [reflexivity|]. now left.
    + intros _. split; [reflexivity|]. eexists. split; [reflexivity|]. right. now eexists.
    + intros H. specialize (H e eq_refl). congruence.
Qed.

(** No HTTPS endpoint: the request raises a [RequestException]. *)
Lemma network_probe_findings_witness :
  snd (scan_network_security unreachable_world (initial_process default_args)) = inl tt.
Proof.
  refine (proj1 (proj1 (proj2 (proj2 (proj2
            (network_probe_findings unreachable_world (initial_process default_args)))))
            _)).
  intros e H. injection H as <-. reflexivity.
Defined.

(** ** Strings *)

Lemma str_eqb_spec (a b : str) : reflect (a = b) (Str.eqb a b).
Proof.
  revert b. induction a as [|x a IH]; intros [|y b]; cbn [Str.eqb];
    try (constructor; congruence).
  destruct (N.eqb_spec x y) as [->|Hxy]; cbn [andb].
  - destruct (IH b) as [->|Hab]; constructor; congruence.
  - constructor. congruence.
Qed.

Lemma str_eqb_refl (a : str) : Str.eqb a a = true.
Proof. now destruct (str_eqb_spec a a). Qed.

(** Linear arithmetic with quotients and remainders by constants. *)
Ltac divlia := zify; Z.to_euclidean_division_equations; lia.

(** A property of the numbers below a bound that holds of each of them. *)
Lemma forallb_below (f : N -> bool) (k : nat) :
  forallb f (map N.of_nat (seq 0 k)) = true ->
  forall n, (n < N.of_nat k)%N -> f n = true.
Proof.
  intros H n Hn. rewrite forallb_forall in H. apply H.
  apply in_map_iff. exists (N.to_nat n). split; [apply N2Nat.id|].
  apply in_seq. lia.
Qed.

Lemma take_last_app (a b : str) : Str.take_last (length b) (a ++ b) = b.
Proof.
  unfold Str.take_last, Str.drop. rewrite length_app.
  replace (length a + length b - length b)%nat with (length a) by lia.
  rewrite skipn_app, skipn_all, Nat.sub_diag. reflexivity.
Qed.

Lemma oct_digits_acc (fuel : nat) : forall (n : N) (acc : str),
  Str.oct_digits fuel n acc = Str.oct_digits fuel n [] ++ acc.
Proof.
  induction fuel as [|f IH]; intros n acc; simpl; [reflexivity|].
  destruct (n / 8 =? 0)%N; [reflexivity|].
  rewrite IH. rewrite (IH _ [_]).
  now rewrite <- app_assoc.
Qed.

Lemma size_nat_ge_3 (m : N) : (64 <= m)%N -> (3 <= N.size_nat m)%nat.
Proof.
  intros H. destruct m as [|q]; [lia|].
  destruct q as [[[q|q|]|[q|q|]|]|[[q|q|]|[q|q|]|]|]; simpl; lia.
Qed.

Lemma oct_digits_step (f : nat) (n : N) (acc : str) :
  Str.oct_digits (S f) n acc
  = if (n / 8 =? 0)%N then Str.oct_digit (n mod 8) :: acc
    else Str.oct_digits f (n / 8) (Str.oct_digit (n mod 8) :: acc).
Proof. reflexivity. Qed.

Lemma oct_digits_last (f : nat) (n : N) (acc : str) :
  exists pre,
    Str.oct_digits (S f) n acc = pre ++ Str.oct_digit (n mod 8) :: acc.
Proof.
  rewrite oct_digits_step. destruct (n / 8 =? 0)%N.
  - now exists [].
  - eexists. apply oct_digits_acc.
Qed.

(** The three permission digits of a mode. *)
Lemma mode_of_permission_bits (st_mode : N) :
  (64 <= st_mode)%N ->
  mode_of st_mode
  = [ Str.oct_digit (st_mode / 64 mod 8);
      Str.oct_digit (st_mode / 8 mod 8);
      Str.oct_digit (st_mode mod 8) ].
Proof.
  intros H. unfold mode_of, Str.oct.
  pose proof (size_nat_ge_3 st_mode H) as Hs.
  destruct (N.size_nat st_mode) as [|[|[|k]]]; try lia.
  assert (H8 : (st_mode / 8 =? 0)%N = false).
  { apply N.eqb_neq. intros E. apply N.div_small_iff in E; lia. }
  assert (E64 : (st_mode / 8 / 8 = st_mode / 64)%N).
  { rewrite N.Div0.div_div. reflexivity. }
  assert (H64 : (st_mode / 8 / 8 =? 0)%N = false).
  { apply N.eqb_neq. rewrite E64. intros E. apply N.div_small_iff in E; lia. }
  rewrite oct_digits_step, H8, oct_digits_step, H64.
  destruct (oct_digits_last (S k) (st_mode / 8 / 8)
              [Str.oct_digit (st_mode / 8 mod 8); Str.oct_digit (st_mode mod 8)])
    as [pre ->].
  rewrite E64, app_assoc.
  apply (take_last_app ("0o" ++ pre)
           [ Str.oct_digit (st_mode / 64 mod 8);
             Str.oct_digit (st_mode / 8 mod 8);
             Str.oct_digit (st_mode mod 8) ]).
Qed.

(** The mode string in terms of the permission bits: a file whose low nine
    bits are [abc] in octal has the mode string of the digits a, b, c. *)
Lemma mode_of_low_bits (st_mode a b c : N) :
  (a < 8)%N -> (b < 8)%N -> (c < 8)%N ->
  (64 <= st_mode)%N ->
  (st_mode mod 512 = 64 * a + 8 * b + c)%N ->
  mode_of st_mode = [Str.oct_digit a; Str.oct_digit b; Str.oct_digit c].
Proof.
  intros Ha Hb Hc Hm Hlow. rewrite (mode_of_permission_bits st_mode Hm).
  assert (E2 : (st_mode / 64 mod 8 = a)%N) by divlia.
  assert (E1 : (st_mode / 8 mod 8 = b)%N) by divlia.
  assert (E0 : (st_mode mod 8 = c)%N) by divlia.
  now rewrite E0, E1, E2.
Qed.


(** World-writable modes, whatever the file type bits. *)
Lemma mode_of_666 (st_mode : N) :
  (64 <= st_mode)%N -> (st_mode mod 512 = 438)%N -> mode_of st_mode = "666".
Proof. intros H E. apply (mode_of_low_bits st_mode 6 6 6); lia. Qed.

Example mode_of_regular_666 : mode_of 33206 = "666".
Proof. reflexivity. Qed.

(** ** The file permission probe *)

Lemma bind_print {B} (s : str) (k : unit -> M B) (p : Process) :
  (x <- print s ;; k x) p = k tt (printed [s] p).
Proof. reflexivity. Qed.




Lemma map_results_map_results (f g : Results -> Results) (p : Process) :
  map_results g (map_results f p) = map_results (fun r => g (f r)) p.
Proof. reflexivity. Qed.







(** The cases of the claim, on one path each. *)
Example prescribed_examples :
  prescribed "/a" 33279 = Vulnerability [ ("type", "File Permissions"); ("file", "/a");
                                          ("permissions", "777");
                                          ("description",
                                           "File has overly permissive permissions") ]
  /\ prescribed "/a" 33188 = Passed "/a: Safe permissions (644)"
  /\ prescribed "/a" 33152 = Warning "/a: Unusual permissions (600)"
  /\ prescribed "/a" 36333 = Passed "/a: Safe permissions (755)".
Proof. repeat split. Qed.

(** A path after one whose examination raises is not reached. *)
Example path_after_failure_not_reached :
  reached denied_world critical_files = [].
Proof. reflexivity. Qed.

(** ** The signaling probe *)

(** One payload, once it is sent: a text answer without the word [error]
    (in any letter case) adds the finding of that payload to the
    vulnerabilities and nothing else; a text answer with the word, or the
    time-out of the wait, adds nothing; a binary answer raises
    [TypeError]. *)
Lemma signaling_payload_findings (w : World) (payload : str) (p : Process) :
  ws_send w payload = None ->
  let q := fst (probe_payload w payload p) in
  let o := snd (probe_payload w payload p) in
  let finding := [ ("type", "Input Validation");
                   ("payload", firstn 100 payload);
                   ("description",
                    "Server accepts malicious input without proper validation") ] in
  (forall response : str,
      ws_recv w payload = inl (Text response) ->
      o = inl tt
      /\ stdout q = stdout p /\ files q = files p
      /\ target_host (scanner q) = target_host (scanner p)
      /\ target_port (scanner q) = target_port (scanner p)
      /\ warnings (results (scanner q)) = warnings (results (scanner p))
      /\ info (results (scanner q)) = info (results (scanner p))
      /\ passed (results (scanner q)) = passed (results (scanner p))
      /\ vulnerabilities (results (scanner q))
         = vulnerabilities (results (scanner p))
             ++ (if Str.contains "error" (Str.lower response) then [] else [finding]))
  /\ (forall e : exc,
        ws_recv w payload = inr e ->
        is_AsyncioTimeoutError e = true ->
        probe_payload w payload p = (p, inl tt))
  /\ (forall data : list N,
        ws_recv w payload = inl (Binary data) ->
        probe_payload w payload p
        = (p, inr (mkExc TypeError "a bytes-like object is required, not 'str'"))).
Proof.
  intros Hsend q o finding. subst q o.
  unfold probe_payload, bind, try_except, call_, call.
  rewrite Hsend. cbn [ret]. split; [|split].
  - intros response ->. cbn [ret].
    destruct (Str.contains "error" (Str.lower response)); cbn;
      rewrite ?app_nil_r; repeat split.
  - intros e -> He. cbn [raise]. rewrite He. reflexivity.
  - intros data ->. reflexivity.
Qed.

(** An answer that holds the word [error] adds nothing either. *)
Lemma probe_payload_completes (w : World) (payload : str) (p : Process) :
  completes w payload ->
  probe_payload w payload p
  = (if accepted w payload
     then map_results (add_vulnerability (input_validation_finding payload)) p
     else p, inl tt).
Proof.
  intros [Hsend Hrecv]. unfold probe_payload, bind, try_except, call_, call, accepted.
  rewrite Hsend. cbn [ret].
  destruct (ws_recv w payload) as [[response|data]|e].
  - cbn [ret]. now destruct (Str.contains "error" (Str.lower response)).
  - destruct Hrecv.
  - cbn [raise]. now rewrite Hrecv.
Qed.

Lemma map_results_vulnerabilities_nil (p : Process) :
  map_results (fun r => mkResults (vulnerabilities r ++ []) (warnings r) (info r) (passed r)) p
  = p.
Proof.
  destruct p as [[h n [v wa i pa]] out fs]. unfold map_results. cbn.
  now rewrite app_nil_r.
Qed.

(** The loop over payloads whose exchanges all complete adds one
    Vulnerability finding for each accepted payload, in order. *)
Lemma payload_loop_completes (w : World) (l : list str) : forall p : Process,
  Forall (completes w) l ->
  for_each l (probe_payload w) p
  = (map_results
       (fun r => mkResults
                   (vulnerabilities r
                      ++ map input_validation_finding (filter (accepted w) l))
                   (warnings r) (info r) (passed r)) p, inl tt).
Proof.
  induction l as [|x t IH]; intros p Hl.
  - cbn [for_each filter map ret]. now rewrite map_results_vulnerabilities_nil.
  - inversion Hl as [|? ? Hx Ht]; subst.
    cbn [for_each]. unfold bind at 1. rewrite (probe_payload_completes w x p Hx).
    rewrite IH by assumption. cbn [filter].
    destruct (accepted w x); [|reflexivity].
    unfold map_results. cbn. now rewrite <- app_assoc.
Qed.

(** When the connection is made and every exchange completes, the probe
    returns with the findings of the accepted payloads and one Passed
    finding for the connection. *)
Lemma signaling_probe_completes (w : World) (p : Process) :
  ws_connect w (signaling_uri p) = None ->
  Forall (completes w) malicious_payloads ->
  scan_signaling_server w p
  = (map_results
       (fun r => mkResults
                   (vulnerabilities r
                      ++ map input_validation_finding
                           (filter (accepted w) malicious_payloads))
                   (warnings r) (info r)
                   (passed r ++ ["WebSocket connection established successfully"]))
       (printed ["🔍 Scanning Signaling Server..."] p), inl tt).
Proof.
  intros Hc Hl. unfold scan_signaling_server.
  unfold bind at 1 2 3. unfold print, self_target_host, self_target_port.
  cbn [scanner printed target_host target_port].
  unfold signaling_uri in Hc. unfold try_except, bind, call_.
  rewrite Hc. cbn [ret].
  rewrite (payload_loop_completes w malicious_payloads _ Hl).
  reflexivity.
Qed.

(** C2 (the input on which the code departs from the claim): the server
    answers every payload in time, with the two bytes [ok] in a binary
    frame.  The answer holds no [error], yet no Vulnerability finding is
    recorded for any payload: the test of the answer raises [TypeError] at
    the first payload, the other four are never sent, and the probe records
    the Warning that it could not connect, and no Passed finding.  The same
    answer in a text frame gives the five findings of the claim. *)
Theorem binary_answer_is_not_judged :
  let p := initial_process default_args in
  let q := fst (scan_signaling_server binary_world p) in
  let q' := fst (scan_signaling_server text_world p) in
  ws_connect binary_world (signaling_uri p) = None
  /\ Forall (fun payload =>
               ws_send binary_world payload = None
               /\ ws_recv binary_world payload = inl (Binary [111; 107]%N)
               /\ ws_recv text_world payload = inl (Text [111; 107]%N))
            malicious_payloads
  /\ snd (scan_signaling_server binary_world p) = inl tt
  /\ vulnerabilities (results (scanner q)) = []
  /\ passed (results (scanner q)) = []
  /\ warnings (results (scanner q))
     = ["Could not connect to signaling server: a bytes-like object is required, not 'str'"]
  /\ map (dict_get "type") (vulnerabilities (results (scanner q')))
     = repeat (Some "Input Validation") 5
  /\ map (dict_get "payload") (vulnerabilities (results (scanner q')))
     = map (fun payload => Some (firstn 100 payload)) malicious_payloads
  /\ passed (results (scanner q')) = ["WebSocket connection established successfully"]
  /\ warnings (results (scanner q')) = [].
Proof.
  cbv zeta. split; [reflexivity|]. split; [repeat constructor|].
  vm_compute. repeat split.
Qed.

(** ** Relations every step of the program preserves *)

Section Preservation.

Variable R : Process -> Process -> Prop.
Hypothesis R_refl : forall p, R p p.
Hypothesis R_trans : forall p q r, R p q -> R q r -> R p r.
Hypothesis R_printed : forall ls p, R p (printed ls p).
Hypothesis R_written : forall path content p, R p (written path content p).

Lemma preserves_ret {A} (a : A) : preserves R (ret a).
Proof. intros p. apply R_refl. Qed.

Lemma preserves_raise {A} (e : exc) : preserves R (@raise A e).
Proof. intros p. apply R_refl. Qed.

Lemma preserves_bind {A B} (c : M A) (k : A -> M B) :
  preserves R c -> (forall a, preserves R (k a)) -> preserves R (x <- c ;; k x).
Proof.
  intros Hc Hk p. unfold bind. specialize (Hc p).
  destruct (c p) as [p' [a|e]]; cbn [fst] in *.
  - eapply R_trans; [exact Hc | apply Hk].
  - exact Hc.
Qed.

(** What [c ;; k] reaches is related to what [c] alone reaches. *)
Lemma bind_after {A B} (c : M A) (k : A -> M B) (p : Process) :
  (forall a, preserves R (k a)) -> R (fst (c p)) (fst ((x <- c ;; k x) p)).
Proof.
  intros Hk. unfold bind. destruct (c p) as [p' [a|e]]; cbn [fst].
  - apply Hk.
  - apply R_refl.
Qed.

Lemma preserves_try_except {A} (body : M A) (handler : exc -> option (M A)) :
  preserves R body ->
  (forall e h, handler e = Some h -> preserves R h) ->
  preserves R (try_except body handler).
Proof.
  intros Hb Hh p. unfold try_except. specialize (Hb p).
  destruct (body p) as [p' [a|e]]; cbn [fst] in *; [exact Hb|].
  destruct (handler e) as [h|] eqn:E; [|exact Hb].
  eapply R_trans; [exact Hb | apply (Hh e h E)].
Qed.

Lemma try_except_after {A} (body : M A) (handler : exc -> option (M A)) (p : Process) :
  (forall e h, handler e = Some h -> preserves R h) ->
  R (fst (body p)) (fst (try_except body handler p)).
Proof.
  intros Hh. unfold try_except. destruct (body p) as [p' [a|e]]; cbn [fst].
  - apply R_refl.
  - destruct (handler e) as [h|] eqn:E; [apply (Hh e h E) | apply R_refl].
Qed.

Lemma preserves_for_each {A} (l : list A) (body : A -> M unit) :
  (forall x, preserves R (body x)) -> preserves R (for_each l body).
Proof.
  intros Hb. induction l as [|x t IH]; cbn [for_each].
  - apply preserves_ret.
  - apply preserves_bind; [apply Hb | intros _; exact IH].
Qed.

Lemma preserves_when (b : bool) (c : M unit) : preserves R c -> preserves R (when b c).
Proof. intros Hc. destruct b; [exact Hc | apply preserves_ret]. Qed.

Lemma preserves_call {A} (r : A + exc) : preserves R (call r).
Proof. destruct r; [apply preserves_ret | apply preserves_raise]. Qed.

Lemma preserves_call_ (r : option exc) : preserves R (call_ r).
Proof. destruct r; [apply preserves_raise | apply preserves_ret]. Qed.

Lemma preserves_print (s : str) : preserves R (print s).
Proof. intros p. apply R_printed. Qed.

Lemma preserves_write_file (path content : str) : preserves R (write_file path content).
Proof. intros p. apply R_written. Qed.

Lemma preserves_getitem (d : pydict) (k : str) : preserves R (getitem d k).
Proof.
  unfold getitem. destruct (dict_get k d); [apply preserves_ret | apply preserves_raise].
Qed.

Lemma preserves_self_target_host : preserves R self_target_host.
Proof. intros p. apply R_refl. Qed.

Lemma preserves_self_target_port : preserves R self_target_port.
Proof. intros p. apply R_refl. Qed.

Lemma preserves_self_results : preserves R self_results.
Proof. intros p. apply R_refl. Qed.

Lemma preserves_load_global (name : str) : preserves R (load_global name).
Proof.
  unfold load_global. destruct (str_in name module_globals);
    [apply preserves_ret | apply preserves_raise].
Qed.

Lemma preserves_sys_exit (code : Z) : preserves R (sys_exit code).
Proof. apply preserves_raise. Qed.

(** The appends to the buckets are all the program does to its results. *)
Hypothesis R_vulnerability : forall v p,
  NoDup (map fst v) -> R p (map_results (add_vulnerability v) p).
Hypothesis R_warning : forall s p, R p (map_results (add_warning s) p).
Hypothesis R_info : forall s p, R p (map_results (add_info s) p).
Hypothesis R_passed : forall s p, R p (map_results (add_passed s) p).

Lemma preserves_append_vulnerability (v : pydict) :
  NoDup (map fst v) -> preserves R (append_vulnerability v).
Proof. intros Hv p. now apply R_vulnerability. Qed.

Lemma preserves_append_warning (s : str) : preserves R (append_warning s).
Proof. intros p. apply R_warning. Qed.

Lemma preserves_append_info (s : str) : preserves R (append_info s).
Proof. intros p. apply R_info. Qed.

Lemma preserves_append_passed (s : str) : preserves R (append_passed s).
Proof. intros p. apply R_passed. Qed.

Lemma input_validation_finding_keys (payload : str) :
  NoDup (map fst (input_validation_finding payload)).
Proof.
  cbn. repeat constructor; cbn; intuition discriminate.
Qed.

Lemma file_permissions_finding_keys (path mode : str) :
  NoDup (map fst (file_permissions_finding path mode)).
Proof.
  cbn. repeat constructor; cbn; intuition discriminate.
Qed.

Lemma tls_finding_keys (protocol : str) : NoDup (map fst (tls_finding protocol)).
Proof.
  cbn. repeat constructor; cbn; intuition discriminate.
Qed.

(** One step of a proof that a piece of the program preserves [R]. *)
Ltac preserve_step :=
  first
    [ apply preserves_bind; [|intros ?]
    | apply preserves_try_except; [|intros ? ? ?]
    | apply preserves_for_each; intros ?
    | apply preserves_when
    | apply preserves_call
    | apply preserves_call_
    | apply preserves_print
    | apply preserves_write_file
    | apply preserves_getitem
    | apply preserves_self_target_host
    | apply preserves_self_target_port
    | apply preserves_self_results
    | apply preserves_load_global
    | apply preserves_sys_exit
    | apply preserves_ret
    | apply preserves_raise
    | apply preserves_append_warning
    | apply preserves_append_info
    | apply preserves_append_passed
    | apply preserves_append_vulnerability;
      first [ apply input_validation_finding_keys
            | apply file_permissions_finding_keys
            | apply tls_finding_keys ]
    | match goal with
      | H : (if ?b then _ else _) = Some _ |- _ => destruct b
      | H : Some _ = Some _ |- _ => inversion H; subst; clear H
      | H : None = Some _ |- _ => discriminate H
      | |- preserves _ (if ?b then _ else _) => destruct b
      | |- preserves _ (match ?x with _ => _ end) => destruct x
      end ].

Ltac preserve := repeat preserve_step.

Lemma preserves_probe_payload (w : World) (payload : str) :
  preserves R (probe_payload w payload).
Proof. unfold probe_payload. preserve. Qed.

Lemma preserves_scan_signaling_server (w : World) :
  preserves R (scan_signaling_server w).
Proof.
  unfold scan_signaling_server. preserve.
Qed.

Lemma preserves_scan_system_dependencies (w : World) :
  preserves R (scan_system_dependencies w).
Proof. unfold scan_system_dependencies, probe_dependency. preserve. Qed.

Lemma preserves_scan_file_permissions (w : World) :
  preserves R (scan_file_permissions w).
Proof. unfold scan_file_permissions, probe_file, classify_mode. preserve. Qed.

Lemma preserves_scan_network_security (w : World) :
  preserves R (scan_network_security w).
Proof. unfold scan_network_security, inspect_tls. preserve. Qed.

Lemma preserves_scan_authentication_security :
  preserves R scan_authentication_security.
Proof. unfold scan_authentication_security. preserve. Qed.

Lemma preserves_generate_report : preserves R generate_report.
Proof. unfold generate_report, report_vulnerability. preserve. Qed.

Lemma preserves_run_scan (w : World) : preserves R (run_scan w).
Proof.
  unfold run_scan.
  apply preserves_bind; [apply preserves_print|intros _].
  apply preserves_bind; [apply preserves_scan_signaling_server|intros _].
  apply preserves_bind; [apply preserves_scan_system_dependencies|intros _].
  apply preserves_bind; [apply preserves_scan_file_permissions|intros _].
  apply preserves_bind; [apply preserves_scan_network_security|intros _].
  apply preserves_bind; [apply preserves_scan_authentication_security|intros _].
  apply preserves_generate_report.
Qed.

Lemma preserves_main_body (w : World) (args : Args) : preserves R (main_body w args).
Proof.
  unfold main_body. apply preserves_bind; [apply preserves_run_scan|intros _].
  unfold dump_and_close. preserve.
Qed.

Lemma preserves_main (w : World) (args : Args) : preserves R (main w args).
Proof.
  unfold main. apply preserves_try_except; [apply preserves_main_body|].
  intros e h H. preserve.
Qed.

(** The signaling probe prints its banner first. *)
Lemma signaling_after_banner (w : World) (p : Process) :
  R (printed ["🔍 Scanning Signaling Server..."] p)
    (fst (scan_signaling_server w p)).
Proof.
  unfold scan_signaling_server. rewrite bind_print.
  generalize (printed ["🔍 Scanning Signaling Server..."] p). cbv beta.
  match goal with |- forall q, R q (fst (?c q)) => change (preserves R c) end.
  preserve.
Qed.

(** The command starts the scan, and the scan starts with the signaling
    probe: all that follows only adds to what that probe leaves. *)
Lemma main_after_signaling (w : World) (args : Args) (p : Process) :
  R (fst (scan_signaling_server w
            (printed ["🛡️  Starting SmolDesk Security Scan..."] p)))
    (fst (main w args p)).
Proof.
  unfold main.
  eapply R_trans; [|apply try_except_after; intros e h H; preserve].
  unfold main_body.
  eapply R_trans; [|apply bind_after; intros _; unfold dump_and_close; preserve].
  unfold run_scan. rewrite bind_print.
  apply bind_after. intros _.
  apply preserves_bind; [apply preserves_scan_system_dependencies|intros _].
  apply preserves_bind; [apply preserves_scan_file_permissions|intros _].
  apply preserves_bind; [apply preserves_scan_network_security|intros _].
  apply preserves_bind; [apply preserves_scan_authentication_security|intros _].
  apply preserves_generate_report.
Qed.

End Preservation.

(** *** Nothing is taken back *)

Lemma grows_refl {A} (l : list A) : grows l l.
Proof. exists []. now rewrite app_nil_r. Qed.

Lemma grows_trans {A} (l1 l2 l3 : list A) : grows l1 l2 -> grows l2 l3 -> grows l1 l3.
Proof.
  intros [a ->] [b ->]. exists (a ++ b). now rewrite app_assoc.
Qed.

Lemma grows_app {A} (l a : list A) : grows l (l ++ a).
Proof. now exists a. Qed.

#[local] Hint Resolve grows_refl grows_app : core.

Lemma extends_refl (p : Process) : extends p p.
Proof. unfold extends. repeat split; auto. Qed.

Lemma extends_trans (p q r : Process) : extends p q -> extends q r -> extends p r.
Proof.
  unfold extends. intros (H1 & H2 & H3 & H4 & H5 & H6 & H7 & H8)
    (K1 & K2 & K3 & K4 & K5 & K6 & K7 & K8).
  repeat split; try congruence; eapply grows_trans; eassumption.
Qed.

Lemma extends_printed (ls : list str) (p : Process) : extends p (printed ls p).
Proof. unfold extends, printed; cbn. repeat split; auto. Qed.

Lemma file_set_paths (path content : str) (fs : Files) :
  grows (map fst fs) (map fst (file_set path content fs)).
Proof.
  induction fs as [|[q c] t IH]; cbn [file_set map fst].
  - now exists [path].
  - destruct (Str.eqb q path); cbn [map fst]; [apply grows_refl|].
    destruct IH as [added ->]. now exists added.
Qed.

Lemma extends_written (path content : str) (p : Process) :
  extends p (written path content p).
Proof.
  unfold extends, written; cbn. repeat split; auto. apply file_set_paths.
Qed.

Lemma extends_vulnerability (v : pydict) (p : Process) :
  NoDup (map fst v) -> extends p (map_results (add_vulnerability v) p).
Proof. intros _. unfold extends, map_results; cbn. repeat split; auto. Qed.

Lemma extends_warning (s : str) (p : Process) :
  extends p (map_results (add_warning s) p).
Proof. unfold extends, map_results; cbn. repeat split; auto. Qed.

Lemma extends_info (s : str) (p : Process) :
  extends p (map_results (add_info s) p).
Proof. unfold extends, map_results; cbn. repeat split; auto. Qed.

Lemma extends_passed (s : str) (p : Process) :
  extends p (map_results (add_passed s) p).
Proof. unfold extends, map_results; cbn. repeat split; auto. Qed.

(** A run of the command only adds to the output, the files and the
    findings, and keeps the target. *)
Lemma main_extends (w : World) (args : Args) : preserves extends (main w args).
Proof.
  exact (preserves_main extends extends_refl extends_trans extends_printed
           extends_written extends_vulnerability extends_warning extends_info
           extends_passed w args).
Qed.

(** *** Distinct keys *)

Lemma keeps_distinct_keys_refl (p : Process) : keeps_distinct_keys p p.
Proof. intros H. exact H. Qed.

Lemma keeps_distinct_keys_trans (p q r : Process) :
  keeps_distinct_keys p q -> keeps_distinct_keys q r -> keeps_distinct_keys p r.
Proof. unfold keeps_distinct_keys. auto. Qed.

Lemma keeps_distinct_keys_vulnerability (v : pydict) (p : Process) :
  NoDup (map fst v) -> keeps_distinct_keys p (map_results (add_vulnerability v) p).
Proof.
  intros Hv H. unfold distinct_keys, map_results in *. cbn.
  apply Forall_app. split; [exact H | now constructor].
Qed.

(** Every vulnerability entry the program builds has distinct keys. *)
Lemma main_body_keeps_distinct_keys (w : World) (args : Args) :
  preserves keeps_distinct_keys (main_body w args).
Proof.
  apply (preserves_main_body keeps_distinct_keys keeps_distinct_keys_refl
           keeps_distinct_keys_trans);
    try exact keeps_distinct_keys_vulnerability;
    intros; intros H; exact H.
Qed.

(** C7 (the input on which the code departs from the claim): the server
    accepts the connection and the first payload, then closes the connection
    instead of answering.  The connection was established, yet the probe
    records no Passed finding; it records the Warning that it could not
    connect. *)
Theorem signaling_passed_lost_when_dropped :
  let p := initial_process default_args in
  let r := results (scanner (fst (scan_signaling_server dropping_world p))) in
  ws_connect dropping_world (signaling_uri p) = None
  /\ snd (scan_signaling_server dropping_world p) = inl tt
  /\ passed r = []
  /\ warnings r
     = ["Could not connect to signaling server: no close frame received or sent"].
Proof. vm_compute. repeat split. Qed.

(** When every exchange completes, the Passed finding is there, once. *)
Lemma signaling_passed_when_completes (w : World) (p : Process) :
  ws_connect w (signaling_uri p) = None ->
  Forall (completes w) malicious_payloads ->
  passed (results (scanner (fst (scan_signaling_server w p))))
  = (passed (results (scanner p))
       ++ ["WebSocket connection established successfully"]).
Proof.
  intros Hc Hl. now rewrite (signaling_probe_completes w p Hc Hl).
Qed.

(** ** Failures inside a probe *)

(** C4 (the inputs on which the code departs from the claim): the file
    permission probe has no handler, and the dependency probe handles two
    exception classes only.  When the first checked path cannot be examined,
    or when [ffmpeg] may not be executed, the [PermissionError] leaves the
    probe and the scan: the probes after it do not run, no report is
    printed, and the command ends with status 1. *)
Theorem permission_error_aborts_scan :
  let p0 := initial_process default_args in
  (snd (scan_file_permissions denied_world p0)
     = inr (mkExc PermissionError
              "[Errno 13] Permission denied: '/opt/smoldesk/smoldesk'")
   /\ stdout (fst (run_scan denied_world p0))
      = ["🛡️  Starting SmolDesk Security Scan...";
         "🔍 Scanning Signaling Server...";
         "🔍 Scanning System Dependencies...";
         "🔍 Scanning File Permissions..."]
   /\ snd (run_main denied_world default_args) = 1)
  /\ (snd (scan_system_dependencies unexecutable_world p0)
        = inr (mkExc PermissionError "[Errno 13] Permission denied: 'ffmpeg'")
      /\ stdout (fst (run_scan unexecutable_world p0))
         = ["🛡️  Starting SmolDesk Security Scan...";
            "🔍 Scanning Signaling Server...";
            "🔍 Scanning System Dependencies..."]
      /\ snd (run_main unexecutable_world default_args) = 1).
Proof. vm_compute. repeat split. Qed.

(** ** The command *)

Lemma fst_run_main (w : World) (args : Args) :
  fst (run_main w args) = fst (main w args (initial_process args)).
Proof. unfold run_main. now destruct (main w args (initial_process args)). Qed.

(** The [try] block of [main] runs to its end exactly when the scan
    completes and the artifact, if one is asked for, is written in full. *)
Lemma main_body_returns (w : World) (args : Args) :
  snd (main_body w args (initial_process args)) = inl tt
  <-> snd (run_scan w (initial_process args)) = inl tt
      /\ artifact_written w args (fst (run_scan w (initial_process args))).
Proof.
  unfold main_body, artifact_written, bind.
  destruct (run_scan w (initial_process args)) as [p1 [[]|e]]; cbn [fst snd].
  - destruct (output_given args) as [path|]; [|cbn; tauto].
    unfold call_. destruct (open_write w path) as [e|]; cbn [raise ret snd].
    + split; [discriminate | intros [_ [H _]]; discriminate].
    + unfold write_file, self_results, dump_and_close. cbn [scanner written].
      destruct (file_write w path _) as [[n e]|]; cbn.
      * split; [discriminate | intros [_ [_ H]]; discriminate].
      * tauto.
  - split; [discriminate | intros [H _]; discriminate].
Qed.

(** C8, as the code has it: the command exits with status 0 when the scan
    completes and the artifact, if one is asked for, is written, whatever
    was found; these two conditions are exactly what lets the [try] block
    run to its end.  When [KeyboardInterrupt] leaves the block, the command
    prints "Scan interrupted by user" as its last line and exits with
    status 1; when an [Exception] leaves it (raised by the scan, or by
    opening or writing the output file after a completed scan), the command
    prints "Scan failed: " and the message as its last line and exits with
    status 1.  In both cases nothing else changes, and the two lines
    differ. *)
Theorem exit_behaviour : forall (w : World) (args : Args),
  let p := fst (main_body w args (initial_process args)) in
  let o := snd (main_body w args (initial_process args)) in
  let final := fst (run_main w args) in
  let status := snd (run_main w args) in
  (o = inl tt
   <-> snd (run_scan w (initial_process args)) = inl tt
       /\ artifact_written w args (fst (run_scan w (initial_process args))))
  /\ (snd (run_scan w (initial_process args)) = inl tt ->
      artifact_written w args (fst (run_scan w (initial_process args))) ->
      status = 0 /\ final = p)
  /\ (forall e : exc,
        o = inr e -> is_KeyboardInterrupt e = true ->
        status = 1
        /\ stdout final = stdout p ++ [10%N :: "Scan interrupted by user"]
        /\ scanner final = scanner p /\ files final = files p)
  /\ (forall e : exc,
        o = inr e -> is_Exception e = true ->
        status = 1
        /\ stdout final = stdout p ++ [10%N :: "Scan failed: " ++ exc_str e]
        /\ scanner final = scanner p /\ files final = files p)
  /\ (forall e : exc,
        10%N :: "Scan interrupted by user" <> 10%N :: "Scan failed: " ++ exc_str e).
Proof.
  intros w args p o final status. subst p o final status.
  split; [apply main_body_returns|].
  split.
  { intros Hscan Hart.
    pose proof (proj2 (main_body_returns w args) (conj Hscan Hart)) as Ho.
    unfold run_main, main, try_except.
    destruct (main_body w args (initial_process args)) as [p [[]|e]];
      cbn [fst snd] in *; [now split | discriminate]. }
  unfold run_main, main, try_except.
  destruct (main_body w args (initial_process args)) as [p [[]|e]]; cbn [fst snd].
  - repeat split; try discriminate.
  - split; [|split].
    + intros e' He' Hk. injection He' as <-. rewrite Hk. cbn. repeat split.
    + intros e' He' Hx. injection He' as <-.
      assert (Hk : is_KeyboardInterrupt e = false).
      { unfold is_Exception, is_KeyboardInterrupt in *. now destruct (exc_cls e). }
      rewrite Hk, Hx. cbn. repeat split.
    + intros e' H. discriminate H.
Qed.

(** The echoing server gives six vulnerability findings, and status 0. *)
Lemma exit_behaviour_witness :
  snd (run_main echo_world default_args) = 0
  /\ length (vulnerabilities
               (results (scanner (fst (run_main echo_world default_args))))) = 6%nat.
Proof.
  destruct (proj1 (proj2 (exit_behaviour echo_world default_args))
              ltac:(vm_compute; reflexivity) I) as [Hs Hf].
  split; [exact Hs|]. rewrite Hf. vm_compute. reflexivity.
Defined.

(** C8 as stated fails: the scan completes normally, report and all, and
    the command exits with status 1, because the output file cannot be
    opened. *)
Lemma completed_scan_exits_with_failure :
  let args := mkArgs "localhost" 3000 (Some "/report.json") in
  snd (run_scan readonly_world (initial_process args)) = inl tt
  /\ snd (run_main readonly_world args) = 1
  /\ last (stdout (fst (run_main readonly_world args))) []
     = 10%N :: "Scan failed: [Errno 13] Permission denied: '/report.json'".
Proof. vm_compute. repeat split. Qed.

(** An interrupt while the signaling probe waits for an answer: the rest of
    the scan does not run. *)
Example interrupted_run :
  snd (run_main interrupted_world default_args) = 1
  /\ stdout (fst (run_main interrupted_world default_args))
     = [ "🛡️  Starting SmolDesk Security Scan...";
         "🔍 Scanning Signaling Server...";
         10%N :: "Scan interrupted by user" ].
Proof. vm_compute. split; reflexivity. Qed.

(** C6, as the code has it: the port is not checked.  Whatever the port
    argument, inside the range 1 to 65535 or not, the command builds the
    scanner with the host and the port as given and starts the scan: the
    banner and the banner of the signaling probe are the first two lines
    of the output, and when the connection to [ws://host:port] fails with
    an [Exception] the first Warning of the results reports it. *)
Theorem port_is_not_validated : forall (w : World) (args : Args),
  let p := fst (run_main w args) in
  target_host (scanner p) = host args
  /\ target_port (scanner p) = port args
  /\ (exists rest,
        stdout p = "🛡️  Starting SmolDesk Security Scan..."
                   :: "🔍 Scanning Signaling Server..." :: rest)
  /\ (forall e : exc,
        ws_connect w ("ws://" ++ host args ++ ":" ++ Str.of_Z (port args)) = Some e ->
        is_Exception e = true ->
        exists rest,
          warnings (results (scanner p))
          = ("Could not connect to signaling server: " ++ exc_str e) :: rest).
Proof.
  intros w args p. subst p. rewrite fst_run_main.
  set (p0 := initial_process args).
  set (p1 := printed ["🛡️  Starting SmolDesk Security Scan..."] p0).
  pose proof (main_after_signaling extends extends_refl extends_trans extends_printed
                extends_written extends_vulnerability extends_warning extends_info
                extends_passed w args p0) as Hmain.
  fold p1 in Hmain.
  pose proof (signaling_after_banner extends extends_refl extends_trans
                extends_vulnerability extends_warning extends_passed w p1) as Hsig.
  pose proof (extends_trans _ _ _ Hsig Hmain) as (Hh & Hn & [out Hout] & _).
  repeat split.
  - exact Hh.
  - exact Hn.
  - exists out. rewrite Hout. reflexivity.
  - intros e Hc He.
    assert (E : scan_signaling_server w p1
                = (map_results
                     (add_warning ("Could not connect to signaling server: " ++ exc_str e))
                     (printed ["🔍 Scanning Signaling Server..."] p1), inl tt)).
    { unfold scan_signaling_server, bind, print, self_target_host, self_target_port,
        try_except, call_.
      cbn [scanner printed target_host target_port p1 p0 initial_process new_scanner].
      rewrite Hc. cbn [raise]. rewrite He. reflexivity. }
    rewrite E in Hmain. cbn [fst] in Hmain.
    destruct Hmain as (_ & _ & _ & _ & _ & [added Hw] & _).
    exists added. rewrite Hw. reflexivity.
Qed.

Lemma port_is_not_validated_witness :
  exists rest,
    warnings (results (scanner (fst (run_main unreachable_world
                                       (mkArgs "localhost" 70000 None)))))
    = ("Could not connect to signaling server: " ++ exc_str connection_refused)
        :: rest.
Proof.
  refine (proj2 (proj2 (proj2 (port_is_not_validated unreachable_world
                                 (mkArgs "localhost" 70000 None))))
            connection_refused _ _); reflexivity.
Defined.

(** C6 as stated fails: with port 70000 nothing is refused at startup; all
    five probes run and the command ends with status 0. *)
Lemma out_of_range_port_is_scanned :
  let args := mkArgs "localhost" 70000 None in
  (port args < 1 \/ 65535 < port args)
  /\ snd (run_main unreachable_world args) = 0
  /\ firstn 6 (stdout (fst (run_main unreachable_world args)))
     = ["🛡️  Starting SmolDesk Security Scan...";
        "🔍 Scanning Signaling Server...";
        "🔍 Scanning System Dependencies...";
        "🔍 Scanning File Permissions...";
        "🔍 Scanning Network Security...";
        "🔍 Scanning Authentication Security..."].
Proof.
  split; [right; reflexivity|]. vm_compute. split; reflexivity.
Qed.

(** ** The JSON encoder and decoder *)

Section JsonRoundTrip.

Import Json.
Local Open Scope N_scope.

Lemma hex_value_hex_digit (n : N) : n < 16 -> hex_value (hex_digit n) = Some n.
Proof.
  intros H.
  assert (E : (match hex_value (hex_digit n) with Some m => m =? n | None => false end) = true).
  { revert n H. apply (forallb_below _ 16). reflexivity. }
  destruct (hex_value (hex_digit n)) as [m|]; [|discriminate].
  apply N.eqb_eq in E. now subst.
Qed.

Lemma hex4_digits (n : N) :
  n < 65536 ->
  hex4 (hex_digit (n / 4096)) (hex_digit ((n / 256) mod 16))
       (hex_digit ((n / 16) mod 16)) (hex_digit (n mod 16)) = Some n.
Proof.
  intros H. unfold hex4.
  rewrite !hex_value_hex_digit;
    try (apply N.mod_upper_bound; lia);
    try (apply N.Div0.div_lt_upper_bound; lia).
  f_equal. divlia.
Qed.

(** *** Surrogates *)

Lemma lor_shiftl_low (a b : N) (n : N) :
  b < 2 ^ n -> N.lor (N.shiftl a n) b = a * 2 ^ n + b.
Proof.
  intros Hb.
  assert (Hand : N.land (N.shiftl a n) b = 0).
  { apply N.bits_inj. intros i. rewrite N.land_spec, N.bits_0.
    destruct (N.lt_ge_cases i n) as [Hi|Hi].
    - now rewrite N.shiftl_spec_low.
    - rewrite <- (N.mod_small b (2 ^ n)) by exact Hb.
      rewrite N.mod_pow2_bits_high by exact Hi. apply andb_false_r. }
  rewrite <- N.lxor_lor by exact Hand.
  rewrite <- N.add_nocarry_lxor by exact Hand.
  now rewrite N.shiftl_mul_pow2.
Qed.

(** The two halves of a character beyond the basic plane. *)
Lemma high_half (n : N) :
  n < 1048576 -> N.lor 55296 (N.land (N.shiftr n 10) 1023) = 55296 + n / 1024.
Proof.
  intros H. change 1023 with (N.ones 10). rewrite N.land_ones, N.shiftr_div_pow2.
  change (2 ^ 10) with 1024.
  rewrite (N.mod_small (n / 1024)) by (apply N.Div0.div_lt_upper_bound; lia).
  change 55296 with (N.shiftl 54 10) at 1.
  rewrite lor_shiftl_low by (change (2 ^ 10) with 1024;
                             apply N.Div0.div_lt_upper_bound; lia).
  reflexivity.
Qed.

Lemma low_half (n : N) : N.lor 56320 (N.land n 1023) = 56320 + n mod 1024.
Proof.
  change 1023 with (N.ones 10). rewrite N.land_ones. change (2 ^ 10) with 1024.
  change 56320 with (N.shiftl 55 10) at 1.
  rewrite lor_shiftl_low by (change (2 ^ 10) with 1024; apply N.mod_upper_bound; lia).
  reflexivity.
Qed.

Lemma join_halves (n : N) :
  n < 1048576 ->
  join_surrogates (55296 + n / 1024) (56320 + n mod 1024) = 65536 + n.
Proof.
  intros H. unfold join_surrogates.
  rewrite (N.add_comm 55296), (N.add_comm 56320), !N.add_sub.
  rewrite lor_shiftl_low by (change (2 ^ 10) with 1024; apply N.mod_upper_bound; lia).
  change (2 ^ 10) with 1024. f_equal. divlia.
Qed.

(** *** Strings *)

Lemma escape_char_written (c : N) : c < 1114112 -> written_as c (escape_char c).
Proof.
  intros H. unfold escape_char.
  destruct (N.eqb_spec c 34) as [->|H34]; [now apply as_short|].
  destruct (N.eqb_spec c 92) as [->|H92]; [now apply as_short|].
  destruct (N.eqb_spec c 10) as [->|H10]; [now apply as_short|].
  destruct (N.eqb_spec c 13) as [->|H13]; [now apply as_short|].
  destruct (N.eqb_spec c 9) as [->|H9]; [now apply as_short|].
  destruct (N.eqb_spec c 8) as [->|H8]; [now apply as_short|].
  destruct (N.eqb_spec c 12) as [->|H12]; [now apply as_short|].
  destruct (N.leb_spec 32 c) as [H32|H32]; cbn [andb].
  - destruct (N.leb_spec c 126) as [H126|H126]; [now apply as_itself|].
    destruct (N.ltb_spec c 65536) as [Hb|Hb]; [now apply as_escape|].
    cbv zeta. rewrite high_half, low_half by lia.
    apply (as_pair c (c - 65536)); lia.
  - destruct (N.ltb_spec c 65536) as [Hb|Hb]; [now apply as_escape | lia].
Qed.

(** Reading [\uXXXX]: the character, joined with the low surrogate whose
    escape follows a high one. *)
Lemma scanstring_escape_u (n : N) (tail : str) :
  n < 65536 ->
  scanstring (escape_u n ++ tail)
  = match tail with
    | b :: u :: g1 :: g2 :: g3 :: g4 :: rest3 =>
        if is_high_surrogate n && (b =? 92) && (u =? 117) then
          match hex4 g1 g2 g3 g4 with
          | None => None
          | Some uni2 =>
              if is_low_surrogate uni2
              then cons_char (join_surrogates n uni2) (scanstring rest3)
              else cons_char n (scanstring tail)
          end
        else cons_char n (scanstring tail)
    | _ => cons_char n (scanstring tail)
    end.
Proof.
  intros H. unfold escape_u. cbn [app scanstring].
  change (92 =? 34) with false. change (92 =? 92) with true.
  change (117 =? 117) with true. cbv iota.
  rewrite (hex4_digits n H). reflexivity.
Qed.

(** A character that is not a high surrogate is read as it is, whatever
    follows it. *)
Lemma scanstring_escape_u_alone (n : N) (tail : str) :
  n < 65536 -> is_high_surrogate n = false ->
  scanstring (escape_u n ++ tail) = cons_char n (scanstring tail).
Proof.
  intros H Hh. rewrite (scanstring_escape_u n tail H), Hh. cbn [andb].
  now destruct tail as [|b [|u [|g1 [|g2 [|g3 [|g4 rest3]]]]]].
Qed.

Lemma is_high_half (n : N) :
  n < 1048576 ->
  55296 + n / 1024 < 65536
  /\ is_high_surrogate (55296 + n / 1024) = true
  /\ is_low_surrogate (55296 + n / 1024) = false.
Proof.
  intros H. unfold is_high_surrogate, is_low_surrogate.
  repeat split; try divlia.
  - apply andb_true_iff. split; apply N.leb_le; divlia.
  - apply andb_false_iff. left. apply N.leb_gt. divlia.
Qed.

Lemma is_low_half (n : N) :
  56320 + n mod 1024 < 65536 /\ is_low_surrogate (56320 + n mod 1024) = true.
Proof.
  unfold is_low_surrogate. split; [divlia|].
  apply andb_true_iff. split; apply N.leb_le; divlia.
Qed.

Lemma leaves_high_other (b : N) (tail : str) : b <> 92 -> leaves_high (b :: tail).
Proof.
  intros Hb n Hn Hh. rewrite (scanstring_escape_u n _ Hn).
  apply N.eqb_neq in Hb.
  destruct tail as [|u [|g1 [|g2 [|g3 [|g4 rest3]]]]]; try reflexivity.
  now rewrite Hb, andb_false_r.
Qed.

Lemma leaves_high_short (x : N) (tail : str) : x <> 117 -> leaves_high (92 :: x :: tail).
Proof.
  intros Hx n Hn Hh. rewrite (scanstring_escape_u n _ Hn).
  apply N.eqb_neq in Hx.
  destruct tail as [|g1 [|g2 [|g3 [|g4 rest3]]]]; try reflexivity.
  now rewrite Hx, andb_false_r.
Qed.

Lemma leaves_high_escape (d : N) (tail : str) :
  d < 65536 -> is_low_surrogate d = false -> leaves_high (escape_u d ++ tail).
Proof.
  intros Hd Hl n Hn Hh. rewrite (scanstring_escape_u n _ Hn).
  unfold escape_u at 1. cbn [app]. rewrite Hh.
  change (92 =? 92) with true. change (117 =? 117) with true. cbn [andb].
  now rewrite (hex4_digits d Hd), Hl.
Qed.

Lemma leaves_high_written (d : N) (text tail : str) :
  written_as d text -> is_low_surrogate d = false -> leaves_high (text ++ tail).
Proof.
  intros Hw Hl. destruct Hw as [x Hx Hu|H34 H92 H32|Hd|n -> Hn].
  - now apply leaves_high_short.
  - now apply leaves_high_other.
  - now apply leaves_high_escape.
  - rewrite <- app_assoc. destruct (is_high_half n Hn) as (Hs & _ & Hlow).
    now apply leaves_high_escape.
Qed.

Lemma scanstring_written (c : N) (text tail : str) :
  written_as c text ->
  (is_high_surrogate c = true -> leaves_high tail) ->
  scanstring (text ++ tail) = cons_char c (scanstring tail).
Proof.
  intros Hw Ht. destruct Hw as [x Hx Hu|H34 H92 H32|Hc|n -> Hn].
  - cbn [app scanstring]. change (92 =? 34) with false. change (92 =? 92) with true.
    cbv iota. apply N.eqb_neq in Hx. now rewrite Hx, Hu.
  - cbn [app scanstring]. apply N.eqb_neq in H34, H92. rewrite H34, H92.
    apply N.ltb_ge in H32. now rewrite H32.
  - destruct (is_high_surrogate c) eqn:Hh.
    + now apply Ht.
    + now apply scanstring_escape_u_alone.
  - rewrite <- app_assoc.
    destruct (is_high_half n Hn) as (Hs & Hhigh & _).
    destruct (is_low_half n) as (Hs2 & Hlow).
    rewrite (scanstring_escape_u _ _ Hs).
    unfold escape_u at 1. cbn [app]. rewrite Hhigh.
    change (92 =? 92) with true. change (117 =? 117) with true. cbn [andb].
    rewrite (hex4_digits _ Hs2), Hlow.
    now rewrite (join_halves n Hn).
Qed.

Lemma restorable_cons (c : N) (t : str) :
  restorable (c :: t) = true ->
  c < 1114112
  /\ (is_high_surrogate c = true ->
      match t with d :: _ => is_low_surrogate d = false | [] => True end)
  /\ restorable t = true.
Proof.
  cbn [restorable]. intros H.
  apply andb_true_iff in H. destruct H as [H Ht].
  apply andb_true_iff in H. destruct H as [Hc Hp].
  apply N.ltb_lt in Hc. repeat split; try assumption.
  intros Hh. rewrite Hh in Hp. cbn [andb] in Hp.
  destruct t as [|d t']; [exact I|]. now destruct (is_low_surrogate d).
Qed.

(** A written string is read back, up to its closing quote. *)
Lemma scanstring_escape (s rest : str) :
  restorable s = true ->
  scanstring (escape s ++ Str.dq ++ rest) = Some (s, rest).
Proof.
  induction s as [|c t IH]; intros Hs; [reflexivity|].
  destruct (restorable_cons c t Hs) as (Hc & Hp & Ht).
  unfold escape. cbn [flat_map]. fold (escape t). rewrite <- app_assoc.
  rewrite (scanstring_written c _ _ (escape_char_written c Hc)).
  - now rewrite (IH Ht).
  - intros Hh. specialize (Hp Hh). destruct t as [|d t'].
    + cbn [escape flat_map app]. apply leaves_high_other. discriminate.
    + destruct (restorable_cons d t' Ht) as (Hd & _ & _).
      unfold escape. cbn [flat_map]. fold (escape t'). rewrite <- app_assoc.
      exact (leaves_high_written d _ _ (escape_char_written d Hd) Hp).
Qed.

Lemma encode_string_app (s rest : str) :
  encode_string s ++ rest = 34 :: (escape s ++ Str.dq ++ rest).
Proof.
  unfold encode_string. cbn [Str.dq app]. now rewrite <- app_assoc.
Qed.

(** Induction on a value, with the property known for the values inside a
    list or a dict. *)
Lemma value_nested_ind (P : value -> Prop) :
  (forall s, P (JStr s)) ->
  (forall l, Forall P l -> P (JList l)) ->
  (forall d, Forall (fun kv => P (snd kv)) d -> P (JDict d)) ->
  forall v, P v.
Proof.
  intros Hs Hl Hd. fix IH 1. intros [s|l|d].
  - apply Hs.
  - apply Hl. induction l as [|x t IHl]; constructor; [apply IH | exact IHl].
  - apply Hd. induction d as [|[k x] t IHd]; constructor; [apply IH | exact IHd].
Qed.

(** *** White space *)

Lemma skip_ws_spaces (n : nat) (s : str) :
  skip_ws (Str.replicate n 32 ++ s) = skip_ws s.
Proof. induction n as [|n IH]; [reflexivity | exact IH]. Qed.

Lemma skip_ws_newline_indent (level : nat) (s : str) :
  skip_ws (newline_indent level ++ s) = skip_ws s.
Proof.
  unfold newline_indent. rewrite <- app_assoc. cbn [Str.nl app skip_ws is_ws].
  apply skip_ws_spaces.
Qed.

Lemma encoded_string_starts_value (s rest : str) : starts_value (encode_string s ++ rest).
Proof. rewrite encode_string_app. eexists _, _. split; [reflexivity | now left]. Qed.

Lemma dumps_at_starts_value (level : nat) (v : value) (rest : str) :
  starts_value (dumps_at level v ++ rest).
Proof.
  destruct v as [s|[|x l]|[|kv d]].
  - apply encoded_string_starts_value.
  - eexists _, _. split; [reflexivity|]. right; now left.
  - eexists _, _. split; [reflexivity|]. right; now left.
  - eexists _, _. split; [reflexivity|]. right; now right.
  - eexists _, _. split; [reflexivity|]. right; now right.
Qed.

Lemma skip_ws_starts_value (s : str) : starts_value s -> skip_ws s = s.
Proof.
  intros (c & t & -> & H). cbn [skip_ws]. unfold is_ws.
  destruct H as [H|[H|H]]; rewrite H; reflexivity.
Qed.

Lemma skip_ws_dumps_at (level : nat) (v : value) (rest : str) :
  skip_ws (dumps_at level v ++ rest) = dumps_at level v ++ rest.
Proof. apply skip_ws_starts_value, dumps_at_starts_value. Qed.

(** *** Arrays *)

Lemma parse_items_last (pv : parser) (n : nat) (s r rest : str) (x : value) :
  pv s = Some (x, r) ->
  skip_ws r = 93 :: rest ->
  parse_items pv (S n) s = Some ([x], rest).
Proof. intros Hpv Hr. cbn [parse_items]. rewrite Hpv, Hr. reflexivity. Qed.

Lemma parse_items_more (pv : parser) (n : nat) (s r r1 rest : str)
      (x : value) (vs : list value) :
  pv s = Some (x, r) ->
  skip_ws r = 44 :: r1 ->
  parse_items pv n (skip_ws r1) = Some (vs, rest) ->
  parse_items pv (S n) s = Some (x :: vs, rest).
Proof. intros Hpv Hr Hn. cbn [parse_items]. rewrite Hpv, Hr. cbn. rewrite Hn. reflexivity. Qed.

(** The elements of an encoded list are read back, up to the closing
    bracket. *)
Lemma parse_items_dumps (pv : parser) (level outer : nat) (xs : list value) :
  forall (x : value) (n : nat) (rest : str),
  Forall (fun y => forall tail, pv (dumps_at level y ++ tail) = Some (y, tail)) (x :: xs) ->
  (length xs < n)%nat ->
  parse_items pv n
    (dumps_at level x
       ++ items_tail level (map (dumps_at level) xs)
       ++ newline_indent outer ++ "]" ++ rest)
  = Some (x :: xs, rest).
Proof.
  induction xs as [|y ys IH]; intros x n rest Hpv Hn;
    inversion Hpv as [|? ? Hx Hxs]; subst;
    (destruct n as [|n]; [inversion Hn|]).
  - cbn [map items_tail app].
    eapply parse_items_last; [apply Hx|].
    rewrite skip_ws_newline_indent. reflexivity.
  - cbn [map items_tail].
    eapply parse_items_more; [apply Hx | |].
    + rewrite <- !app_assoc. reflexivity.
    + rewrite skip_ws_newline_indent, skip_ws_dumps_at.
      apply IH; [exact Hxs | cbn [length] in Hn; lia].
Qed.

Lemma parse_array_nonempty (pv : parser) (n : nat) (s body : str) :
  skip_ws s = body ->
  starts_value body ->
  parse_array pv n s
  = match parse_items pv n body with
    | Some (vs, rest) => Some (JList vs, rest)
    | None => None
    end.
Proof.
  intros Hs (c & t & -> & Hc). unfold parse_array. rewrite Hs.
  destruct Hc as [H|[H|H]]; rewrite H; reflexivity.
Qed.

(** *** Objects *)

Lemma member_assoc (a b c t : str) : a ++ b ++ c ++ t = (a ++ b ++ c) ++ t.
Proof. now rewrite <- !app_assoc. Qed.

(** One member of an encoded dict is read back; what follows it decides
    how the loop goes on. *)
Lemma parse_pairs_member (pv : parser) (n level : nat) (k : str) (v : value)
      (tail : str) :
  restorable k = true ->
  (forall t, pv (dumps_at level v ++ t) = Some (v, t)) ->
  parse_pairs pv (S n) ((encode_string k ++ ": " ++ dumps_at level v) ++ tail)
  = match skip_ws tail with
    | c :: r =>
        if c =? 44 then
          match parse_pairs pv n (skip_ws r) with
          | Some (kvs, rest) => Some ((k, v) :: kvs, rest)
          | None => None
          end
        else if c =? 125 then Some ([(k, v)], r)
        else None
    | [] => None
    end.
Proof.
  intros Hk Hpv. rewrite <- !app_assoc, encode_string_app.
  cbn [parse_pairs]. change (34 =? 34) with true. cbv iota.
  rewrite (scanstring_escape k _ Hk).
  change (skip_ws (": " ++ dumps_at level v ++ tail))
    with (58 :: 32 :: dumps_at level v ++ tail).
  cbv iota. change (58 =? 58) with true. cbv iota.
  change (skip_ws (32 :: dumps_at level v ++ tail))
    with (skip_ws (dumps_at level v ++ tail)).
  rewrite skip_ws_dumps_at, Hpv. reflexivity.
Qed.

Lemma parse_pairs_dumps (pv : parser) (level outer : nat) (d : list (str * value)) :
  forall (kv : str * value) (n : nat) (rest : str),
  Forall (fun y => restorable (fst y) = true
                   /\ forall tail, pv (dumps_at level (snd y) ++ tail) = Some (snd y, tail))
         (kv :: d) ->
  (length d < n)%nat ->
  parse_pairs pv n
    ((encode_string (fst kv) ++ ": " ++ dumps_at level (snd kv))
       ++ items_tail level
            (map (fun y => encode_string (fst y) ++ ": " ++ dumps_at level (snd y)) d)
       ++ newline_indent outer ++ "}" ++ rest)
  = Some (kv :: d, rest).
Proof.
  induction d as [|y ys IH]; intros [k v] n rest Hpv Hn;
    inversion Hpv as [|? ? [Hk Hx] Hxs]; subst;
    (destruct n as [|n]; [inversion Hn|]); cbn [fst snd] in *.
  - rewrite (parse_pairs_member pv n level k v _ Hk Hx).
    cbn [map items_tail app]. rewrite skip_ws_newline_indent. reflexivity.
  - rewrite (parse_pairs_member pv n level k v _ Hk Hx).
    cbn [map items_tail]. rewrite <- !app_assoc.
    match goal with
    | |- context [skip_ws ("," ++ ?t)] =>
        change (skip_ws ("," ++ t)) with (44 :: t)
    end.
    cbv iota. change (44 =? 44) with true. cbv iota.
    rewrite skip_ws_newline_indent.
    rewrite skip_ws_starts_value by apply encoded_string_starts_value.
    rewrite (member_assoc (encode_string (fst y)) ": ").
    rewrite (IH y n rest Hxs); [reflexivity | cbn [length] in Hn; lia].
Qed.

Lemma parse_object_nonempty (pv : parser) (n : nat) (s body : str) :
  skip_ws s = body ->
  starts_value body ->
  parse_object pv n s
  = match parse_pairs pv n body with
    | Some (kvs, rest) => Some (JDict (dict_of_pairs kvs), rest)
    | None => None
    end.
Proof.
  intros Hs (c & t & -> & Hc). unfold parse_object. rewrite Hs.
  destruct Hc as [H|[H|H]]; rewrite H; reflexivity.
Qed.

(** *** [dict(pairs)] *)

Lemma dict_set_fresh (k : str) (v : value) (d : list (str * value)) :
  ~ In k (map fst d) -> dict_set k v d = d ++ [(k, v)].
Proof.
  induction d as [|[k' v'] t IH]; intros Hk; [reflexivity|].
  cbn [dict_set app]. cbn [map fst In] in Hk.
  destruct (str_eqb_spec k k') as [->|_]; [tauto|].
  rewrite IH; tauto.
Qed.

Lemma dict_of_pairs_from (pairs acc : list (str * value)) :
  NoDup (map fst (acc ++ pairs)) ->
  fold_left (fun d kv => dict_set (fst kv) (snd kv) d) pairs acc = acc ++ pairs.
Proof.
  revert acc. induction pairs as [|[k v] t IH]; intros acc Hnd.
  - cbn. now rewrite app_nil_r.
  - cbn [fold_left fst snd]. rewrite dict_set_fresh.
    + rewrite IH; rewrite <- app_assoc; [reflexivity | exact Hnd].
    + rewrite map_app in Hnd. cbn [map fst] in Hnd.
      apply NoDup_remove_2 in Hnd. intros Hin. apply Hnd.
      apply in_or_app. now left.
Qed.

Lemma dict_of_pairs_distinct (pairs : list (str * value)) :
  NoDup (map fst pairs) -> dict_of_pairs pairs = pairs.
Proof. intros H. unfold dict_of_pairs. now rewrite dict_of_pairs_from. Qed.

(** *** Values *)

Local Open Scope nat_scope.

Lemma size_pos (v : value) : 1 <= size v.
Proof. destruct v; cbn; lia. Qed.

Lemma sizes_bounded (l : list value) (f : nat) :
  list_sum (map size l) <= f ->
  Forall (fun x => size x <= f) l /\ length l <= f.
Proof.
  revert f. induction l as [|x t IH]; intros f H; cbn [length].
  - split; [constructor | lia].
  - change (size x + list_sum (map size t) <= f) in H.
    pose proof (size_pos x). destruct (IH (f - size x)) as [Ht Hlen]; [lia|].
    split; [|lia]. constructor; [lia|].
    eapply Forall_impl; [|exact Ht]. cbv beta. intros; lia.
Qed.

Lemma member_sizes_bounded (d : list (str * value)) (f : nat) :
  list_sum (map (fun kv => size (snd kv)) d) <= f ->
  Forall (fun kv => size (snd kv) <= f) d /\ length d <= f.
Proof.
  revert f. induction d as [|[k x] t IH]; intros f H; cbn [length].
  - split; [constructor | lia].
  - change (size x + list_sum (map (fun kv => size (snd kv)) t) <= f) in H.
    pose proof (size_pos x). destruct (IH (f - size x)) as [Ht Hlen]; [lia|].
    split; [|lia]. constructor; [cbn; lia|].
    eapply Forall_impl; [|exact Ht]. cbv beta. intros; lia.
Qed.

Lemma parse_value_bracket (f : nat) (t : str) :
  parse_value (S f) ("[" ++ t) = parse_array (parse_value f) f t.
Proof. reflexivity. Qed.

Lemma parse_value_brace (f : nat) (t : str) :
  parse_value (S f) ("{" ++ t) = parse_object (parse_value f) f t.
Proof. reflexivity. Qed.

(** An encoded value, whatever follows it, is read back, and what follows
    is left. *)
Lemma parse_value_dumps_at : forall v : value,
  well_formed v ->
  forall (f level : nat) (rest : str),
  size v <= f ->
  parse_value f (dumps_at level v ++ rest) = Some (v, rest).
Proof.
  induction v as [s|l IHl|d IHd] using value_nested_ind;
    intros Hwf f level rest Hf;
    (destruct f as [|f];
     [match type of Hf with size ?v <= 0 => pose proof (size_pos v); lia end|]).
  - inversion Hwf as [s' Hs| |]; subst.
    cbn [dumps_at]. rewrite encode_string_app. cbn [parse_value].
    change (34 =? 34)%N with true. cbv iota.
    now rewrite scanstring_escape.
  - inversion Hwf as [|l' Hl|]; subst. cbn [size] in Hf.
    destruct l as [|x xs]; [reflexivity|].
    destruct (sizes_bounded (x :: xs) f) as [Hsz Hlen]; [lia|].
    cbn [dumps_at map bracket]. rewrite <- !app_assoc, parse_value_bracket.
    erewrite parse_array_nonempty;
      [ | rewrite skip_ws_newline_indent; apply skip_ws_dumps_at
        | apply dumps_at_starts_value ].
    rewrite parse_items_dumps; [reflexivity | | cbn [length] in Hlen; lia].
    rewrite Forall_forall in IHl, Hl, Hsz |- *.
    intros y Hy tail. apply IHl; auto.
  - inversion Hwf as [| |d' Hnd Hd]; subst. cbn [size] in Hf.
    destruct d as [|kv kvs]; [reflexivity|].
    destruct (member_sizes_bounded (kv :: kvs) f) as [Hsz Hlen]; [lia|].
    cbn [dumps_at map bracket]. rewrite <- !app_assoc, parse_value_brace.
    erewrite parse_object_nonempty;
      [ | rewrite skip_ws_newline_indent; apply skip_ws_starts_value
        | ]; try apply encoded_string_starts_value.
    rewrite (member_assoc (encode_string (fst kv)) ": ").
    rewrite parse_pairs_dumps;
      [now rewrite dict_of_pairs_distinct | | cbn [length] in Hlen; lia].
    rewrite Forall_forall in IHd, Hd, Hsz |- *.
    intros y Hy. destruct (Hd y Hy) as [Hk Hv]. split; [exact Hk|].
    intros tail. apply IHd; auto.
Qed.

(** *** The whole text *)

Lemma items_tail_length (level : nat) (items : list str) :
  list_sum (map (@length N) items) <= length (items_tail level items).
Proof.
  induction items as [|x xs IH]; [cbn; lia|].
  change (length x + list_sum (map (@length N) xs)
          <= length ("," ++ newline_indent level ++ x ++ items_tail level xs)).
  rewrite !length_app. lia.
Qed.

Lemma bracket_length (opening closing : str) (level : nat) (items : list str) :
  length opening + list_sum (map (@length N) items)
  <= length (bracket opening closing level items).
Proof.
  destruct items as [|x xs]; unfold bracket.
  - rewrite length_app. cbn. lia.
  - change (length opening + (length x + list_sum (map (@length N) xs))
            <= length (opening ++ newline_indent (S level) ++ x
                         ++ items_tail (S level) xs
                         ++ newline_indent level ++ closing)).
    rewrite !length_app.
    pose proof (items_tail_length (S level) xs). lia.
Qed.

Lemma list_sum_le {A} (f g : A -> nat) (l : list A) :
  Forall (fun x => f x <= g x) l -> list_sum (map f l) <= list_sum (map g l).
Proof.
  induction 1 as [|x t Hx Ht IH]; [cbn; lia|].
  change (f x + list_sum (map f t) <= g x + list_sum (map g t)). lia.
Qed.

(** The text of a value is at least as long as the value has nodes, so its
    length is fuel enough to read it. *)
Lemma size_le_length : forall (v : value) (level : nat),
  size v <= length (dumps_at level v).
Proof.
  induction v as [s|l IHl|d IHd] using value_nested_ind; intros level.
  - cbn [size dumps_at]. unfold encode_string. rewrite length_app. cbn. lia.
  - cbn [size dumps_at].
    pose proof (bracket_length "[" "]" level (map (dumps_at (S level)) l)) as Hb.
    rewrite map_map in Hb.
    assert (list_sum (map size l)
            <= list_sum (map (fun x => length (dumps_at (S level) x)) l)).
    { apply list_sum_le. eapply Forall_impl; [|exact IHl]. cbv beta. auto. }
    cbn [length] in Hb. lia.
  - cbn [size dumps_at].
    pose proof (bracket_length "{" "}" level
                  (map (fun kv => encode_string (fst kv) ++ ": "
                                    ++ dumps_at (S level) (snd kv)) d)) as Hb.
    rewrite map_map in Hb.
    assert (list_sum (map (fun kv => size (snd kv)) d)
            <= list_sum (map (fun kv => length
                                          (encode_string (fst kv) ++ ": "
                                             ++ dumps_at (S level) (snd kv))) d)).
    { apply list_sum_le. eapply Forall_impl; [|exact IHd]. cbv beta.
      intros kv H. rewrite !length_app. specialize (H (S level)). lia. }
    cbn [length] in Hb. lia.
Qed.

(** Reading back what was written gives the value that was written. *)
Lemma loads_dumps (v : value) : well_formed v -> loads (dumps v) = Some v.
Proof.
  intros Hwf. unfold loads, dumps.
  rewrite <- (app_nil_r (dumps_at 0 v)) at 2.
  rewrite skip_ws_dumps_at.
  rewrite parse_value_dumps_at; [reflexivity | exact Hwf | apply size_le_length].
Qed.

(** *** The results of the scanner *)

Lemma of_pydict_well_formed (d : pydict) :
  NoDup (map fst d) ->
  forallb (fun kv => restorable (fst kv) && restorable (snd kv)) d = true ->
  well_formed (of_pydict d).
Proof.
  intros H Hr. unfold of_pydict. constructor.
  - now rewrite map_map, (map_ext _ fst).
  - apply Forall_forall. intros kv Hin. apply in_map_iff in Hin.
    destruct Hin as (x & <- & Hx). rewrite forallb_forall in Hr.
    specialize (Hr x Hx). apply andb_true_iff in Hr. destruct Hr as [Hk Hv].
    split; [exact Hk | now constructor].
Qed.

Lemma strings_well_formed (l : list str) :
  forallb restorable l = true -> well_formed (JList (map JStr l)).
Proof.
  intros Hr. constructor. apply Forall_forall. intros v Hin. apply in_map_iff in Hin.
  destruct Hin as (x & <- & Hx). rewrite forallb_forall in Hr. constructor. now apply Hr.
Qed.

Lemma of_results_well_formed (r : Results) :
  distinct_keys r -> restorable_results r = true -> well_formed (of_results r).
Proof.
  intros Hd Hr. unfold restorable_results in Hr.
  apply andb_true_iff in Hr. destruct Hr as [Hr Hp].
  apply andb_true_iff in Hr. destruct Hr as [Hr Hi].
  apply andb_true_iff in Hr. destruct Hr as [Hv Hw].
  unfold of_results. constructor.
  - cbn. repeat constructor; cbn; intuition discriminate.
  - repeat (apply Forall_cons; [split; [reflexivity|]|]); try apply Forall_nil;
      cbn [snd]; try now apply strings_well_formed.
    constructor. apply Forall_forall. intros v Hin. apply in_map_iff in Hin.
    destruct Hin as (d & <- & Hin). rewrite forallb_forall in Hv.
    unfold distinct_keys in Hd. rewrite Forall_forall in Hd.
    apply of_pydict_well_formed; [now apply Hd | now apply Hv].
Qed.

Lemma map_injective {A B} (f : A -> B) :
  (forall x y, f x = f y -> x = y) ->
  forall a b : list A, map f a = map f b -> a = b.
Proof.
  intros Hf. induction a as [|x a IH]; intros [|y b] E; try discriminate; [reflexivity|].
  cbn [map] in E. injection E as E1 E2. f_equal; [now apply Hf | now apply IH].
Qed.

Lemma of_pydict_injective (a b : pydict) : of_pydict a = of_pydict b -> a = b.
Proof.
  unfold of_pydict. intros E. injection E as E.
  revert E. apply map_injective. intros [k x] [k' y] H. cbn [fst snd] in H.
  now injection H as -> ->.
Qed.

(** Equal values come from equal results. *)
Lemma of_results_injective (r1 r2 : Results) :
  of_results r1 = of_results r2 -> r1 = r2.
Proof.
  destruct r1 as [v1 w1 i1 p1], r2 as [v2 w2 i2 p2]. unfold of_results.
  cbn [vulnerabilities warnings info passed].
  intros H. injection H as Hv Hw Hi Hp.
  assert (Hstr : forall a b : list str, map JStr a = map JStr b -> a = b).
  { apply map_injective. intros x y E. now injection E. }
  apply (map_injective of_pydict of_pydict_injective) in Hv.
  apply Hstr in Hw, Hi, Hp. now subst.
Qed.

End JsonRoundTrip.

(** ** The persisted artifact *)

Lemma forallb_map_true {A B} (f : A -> B) (g : B -> bool) (l : list A) :
  (forall x, g (f x) = true) -> forallb g (map f l) = true.
Proof.
  intros H. induction l as [|x t IH]; [reflexivity|].
  cbn [map forallb]. now rewrite H, IH.
Qed.

Lemma of_results_as_written (r : Results) :
  buckets_as_written (Json.of_results r) = true.
Proof.
  unfold buckets_as_written, Json.of_results. cbn.
  rewrite !forallb_map_true; try reflexivity.
  intros d. unfold Json.of_pydict, flat_object. now apply forallb_map_true.
Qed.

(** The scan writes no file. *)
Lemma run_scan_same_files (w : World) : preserves same_files (run_scan w).
Proof.
  apply (preserves_run_scan same_files); unfold same_files; try reflexivity;
    intros; congruence.
Qed.

Lemma run_scan_keeps_distinct_keys (w : World) :
  preserves keeps_distinct_keys (run_scan w).
Proof.
  apply (preserves_run_scan keeps_distinct_keys keeps_distinct_keys_refl
           keeps_distinct_keys_trans);
    try exact keeps_distinct_keys_vulnerability;
    intros; intros H; exact H.
Qed.

Lemma file_set_twice (path a b : str) :
  file_set path b (file_set path a []) = [(path, b)].
Proof. cbn. now rewrite str_eqb_refl. Qed.

(** C5, as the code has it: the artifact is the JSON text of the four
    buckets, where the vulnerability bucket is a sequence of flat objects
    (string values under "type", "description" and the keys of the
    evidence) and the warning, info and passed buckets are sequences of
    plain strings.  For every aggregate result whose strings are restorable
    (no high surrogate stands directly before a low surrogate), reading the
    text back gives the value that was written, which determines the
    result; and when an output path is given and the scan and the write go
    through, this text is what the file holds. *)
Theorem artifact_round_trip :
  (forall r : Results,
      distinct_keys r ->
      restorable_results r = true ->
      buckets_as_written (Json.of_results r) = true
      /\ Json.loads (Json.dumps (Json.of_results r)) = Some (Json.of_results r)
      /\ (forall r' : Results,
            Json.loads (Json.dumps (Json.of_results r)) = Some (Json.of_results r') ->
            r' = r))
  /\ (forall (w : World) (args : Args) (path : str) (p : Process),
        output_given args = Some path ->
        main_body w args (initial_process args) = (p, inl tt) ->
        files p = [(path, Json.dumps (Json.of_results (results (scanner p))))]
        /\ (restorable_results (results (scanner p)) = true ->
            Json.loads (Json.dumps (Json.of_results (results (scanner p))))
            = Some (Json.of_results (results (scanner p))))).
Proof.
  assert (Hrt : forall r, distinct_keys r -> restorable_results r = true ->
                  Json.loads (Json.dumps (Json.of_results r)) = Some (Json.of_results r)).
  { intros r Hd Hr. now apply loads_dumps, of_results_well_formed. }
  split.
  - intros r Hd Hr. split; [apply of_results_as_written|]. split; [now apply Hrt|].
    intros r' H. rewrite (Hrt r Hd Hr) in H.
    symmetry. apply of_results_injective. congruence.
  - intros w args path p Hout Hrun.
    pose proof (run_scan_same_files w (initial_process args)) as Hfiles.
    pose proof (run_scan_keeps_distinct_keys w (initial_process args)) as Hkeys.
    unfold main_body, bind in Hrun. rewrite Hout in Hrun.
    destruct (run_scan w (initial_process args)) as [p1 [[]|e]]; [|discriminate].
    unfold same_files in Hfiles. cbn [fst initial_process files] in Hfiles.
    assert (Hd : distinct_keys (results (scanner p1))).
    { apply Hkeys. constructor. }
    unfold call_ in Hrun. destruct (open_write w path); [discriminate|].
    unfold write_file, self_results, dump_and_close in Hrun.
    cbn [ret scanner written] in Hrun.
    destruct (file_write w path _) as [[n e]|]; [discriminate|].
    cbn in Hrun. injection Hrun as <-. cbn [files scanner printed written].
    rewrite Hfiles, file_set_twice. split; [reflexivity | now apply Hrt].
Qed.

Lemma artifact_round_trip_witness :
  let args := mkArgs "localhost" 3000 (Some "report.json") in
  let p := fst (main_body echo_world args (initial_process args)) in
  let r := results (scanner p) in
  (files p = [("report.json", Json.dumps (Json.of_results r))]
   /\ Json.loads (Json.dumps (Json.of_results r)) = Some (Json.of_results r))
  /\ buckets_as_written (Json.of_results r) = true.
Proof.
  intros args p r. split.
  - destruct (proj2 artifact_round_trip echo_world args "report.json" p) as [Hf Hl].
    + reflexivity.
    + vm_compute. reflexivity.
    + split; [exact Hf|]. apply Hl. vm_compute. reflexivity.
  - refine (proj1 (proj1 artifact_round_trip r _ _)).
    + vm_compute. repeat constructor; cbn; intuition discriminate.
    + vm_compute. reflexivity.
Defined.

(** C5 as stated fails: in the artifact of a scan the entries of the info
    bucket (and of the warning and passed buckets) are strings, not
    objects with a category, a description and an evidence mapping. *)
Lemma artifact_entries_are_strings :
  let args := mkArgs "localhost" 3000 (Some "report.json") in
  let p := fst (run_main unreachable_world args) in
  exists content v,
    files p = [("report.json", content)]
    /\ Json.loads content = Some v
    /\ bucket "info" v
       = Some (map Json.JStr
                 ["ffmpeg: ffmpeg version 6.0 - Risk: CVE database check needed";
                  "xdotool: Not available"; "ydotool: Not available";
                  "wl-clipboard: Not available"; "xclip: Not found";
                  "No HTTPS endpoint found";
                  "Authentication testing requires running instance"])
    /\ buckets_of_finding_objects v = false.
Proof.
  intros args p. eexists _, _. split; [vm_compute; reflexivity|].
  split; [vm_compute; reflexivity|]. split; vm_compute; reflexivity.
Qed.

(** * Further properties of the scanner *)

(** ** What the steps of the program do to a relation, finding by finding *)

Section Shapes.

Variable R : Process -> Process -> Prop.
Hypothesis R_refl : forall p, R p p.
Hypothesis R_trans : forall p q r, R p q -> R q r -> R p r.
Hypothesis R_printed : forall ls p, R p (printed ls p).
Hypothesis R_input_validation : forall payload p,
  R p (map_results (add_vulnerability (input_validation_finding payload)) p).
Hypothesis R_file_permissions : forall path mode p,
  R p (map_results (add_vulnerability (file_permissions_finding path mode)) p).
Hypothesis R_tls : forall protocol p,
  R p (map_results (add_vulnerability (tls_finding protocol)) p).
Hypothesis R_warning : forall s p, R p (map_results (add_warning s) p).
Hypothesis R_info : forall s p, R p (map_results (add_info s) p).
Hypothesis R_passed : forall s p, R p (map_results (add_passed s) p).

(** One step of a proof that a piece of the scanner preserves [R]. *)
Ltac shape_step :=
  first
    [ assumption
    | apply preserves_bind; [| |intros ?]
    | apply preserves_try_except; [| |intros ? ? ?]
    | apply preserves_for_each; [| |intros ?]
    | apply preserves_when
    | apply preserves_call
    | apply preserves_call_
    | apply preserves_print
    | apply preserves_self_target_host
    | apply preserves_self_target_port
    | apply preserves_self_results
    | apply preserves_load_global
    | apply preserves_getitem
    | apply preserves_ret
    | apply preserves_raise
    | (intros ?; first [ apply R_input_validation | apply R_file_permissions
                       | apply R_tls | apply R_warning | apply R_info
                       | apply R_passed ])
    | match goal with
      | H : (if ?b then _ else _) = Some _ |- _ => destruct b
      | H : Some _ = Some _ |- _ => inversion H; subst; clear H
      | H : None = Some _ |- _ => discriminate H
      | |- preserves _ (if ?b then _ else _) => destruct b
      | |- preserves _ (match ?x with _ => _ end) => destruct x
      end ].

Ltac shape := repeat shape_step.

Lemma shape_scan_signaling_server (w : World) : preserves R (scan_signaling_server w).
Proof. unfold scan_signaling_server, probe_payload. shape. Qed.

Lemma shape_scan_system_dependencies (w : World) :
  preserves R (scan_system_dependencies w).
Proof. unfold scan_system_dependencies, probe_dependency. shape. Qed.

Lemma shape_scan_file_permissions (w : World) : preserves R (scan_file_permissions w).
Proof. unfold scan_file_permissions, probe_file, classify_mode. shape. Qed.

Lemma shape_scan_network_security (w : World) : preserves R (scan_network_security w).
Proof. unfold scan_network_security, inspect_tls. shape. Qed.

Lemma shape_scan_authentication_security : preserves R scan_authentication_security.
Proof. unfold scan_authentication_security. shape. Qed.

Lemma shape_scan_probes (w : World) : preserves R (scan_probes w).
Proof.
  unfold scan_probes.
  apply preserves_bind; [assumption | apply preserves_print; assumption | intros _].
  apply preserves_bind; [assumption | apply shape_scan_signaling_server | intros _].
  apply preserves_bind; [assumption | apply shape_scan_system_dependencies | intros _].
  apply preserves_bind; [assumption | apply shape_scan_file_permissions | intros _].
  apply preserves_bind; [assumption | apply shape_scan_network_security | intros _].
  apply shape_scan_authentication_security.
Qed.

End Shapes.

(** ** The report *)

Lemma untouched_refl (p : Process) : untouched p p.
Proof. now split. Qed.

Lemma untouched_trans (p q r : Process) : untouched p q -> untouched q r -> untouched p r.
Proof. unfold untouched. intros [] []. split; congruence. Qed.

Lemma untouched_printed (ls : list str) (p : Process) : untouched p (printed ls p).
Proof. now split. Qed.

(** X1: the report is a projection of the results: whether it returns or
    raises, [generate_report] leaves the scanner (target and all four
    buckets) and the files as they were, and only adds lines to the
    output. *)
Theorem report_changes_nothing : forall p : Process,
  let p' := fst (generate_report p) in
  scanner p' = scanner p
  /\ files p' = files p
  /\ grows (stdout p) (stdout p').
Proof.
  intros p p'. subst p'.
  destruct (preserves_generate_report untouched untouched_refl untouched_trans
              untouched_printed p) as [Hs Hf].
  destruct (preserves_generate_report extends extends_refl extends_trans
              extends_printed p) as (_ & _ & Hout & _).
  auto.
Qed.

Lemma outcome_after_prints (r : Results) (P : unit + exc -> Prop) (c k : M unit) :
  prints c -> outcome_spec r P k -> outcome_spec r P (c ;; k).
Proof.
  intros Hc Hk p Hp. unfold bind. destruct (Hc p) as [ls ->]. now apply Hk.
Qed.

Lemma outcome_self_results (r : Results) (P : unit + exc -> Prop)
      (body : Results -> M unit) :
  outcome_spec r P (body r) -> outcome_spec r P (r' <- self_results ;; body r').
Proof. intros Hb p Hp. unfold bind, self_results. rewrite Hp. now apply Hb. Qed.

Lemma outcome_before_prints (r : Results) (P : unit + exc -> Prop) (c k : M unit) :
  prints k -> outcome_spec r P c -> outcome_spec r P (c ;; k).
Proof.
  intros Hk Hc p Hp. specialize (Hc p Hp). unfold bind.
  destruct (c p) as [p' [[]|e]]; [|exact Hc].
  destruct (Hk p') as [ls ->]. exact Hc.
Qed.

Lemma report_vulnerability_missing (vuln : pydict) (q : Process) :
  dict_get "type" vuln = None \/ dict_get "description" vuln = None ->
  exists e, report_vulnerability vuln q = (q, inr e) /\ exc_cls e = KeyError.
Proof.
  intros H. unfold report_vulnerability, bind, getitem.
  destruct (dict_get "type" vuln) as [ty|].
  - destruct H as [H|H]; [discriminate|]. rewrite H. cbn. eauto.
  - cbn. eauto.
Qed.

(** The loop over the vulnerabilities stops with [KeyError] at the first
    entry without a type or a description. *)
Lemma report_loop_outcome (l : list pydict) : forall q : Process,
  (snd (for_each l report_vulnerability q) = inl tt
   <-> Forall (fun d => dict_get "type" d <> None /\ dict_get "description" d <> None) l)
  /\ (forall e, snd (for_each l report_vulnerability q) = inr e -> exc_cls e = KeyError).
Proof.
  induction l as [|x t IH]; intros q.
  - cbn. split; [split; auto | discriminate].
  - cbn [for_each]. unfold bind.
    destruct (dict_get "type" x) as [ty|] eqn:Et;
      [destruct (dict_get "description" x) as [de|] eqn:Ed|].
    + destruct (prints_report_vulnerability x
                  ltac:(congruence) ltac:(congruence) q) as [ls ->].
      destruct (IH (printed ls q)) as [[I1 I2] I3]. split; [split|exact I3].
      * intros H. constructor; [split; congruence | now apply I1].
      * intros H. inversion H; subst. now apply I2.
    + destruct (report_vulnerability_missing x q (or_intror Ed)) as (e & -> & He).
      cbn [snd]. split; [split|].
      * discriminate.
      * intros H. inversion H as [|? ? [_ Hd] _]; subst. congruence.
      * intros e' H'. now injection H' as <-.
    + destruct (report_vulnerability_missing x q (or_introl Et)) as (e & -> & He).
      cbn [snd]. split; [split|].
      * discriminate.
      * intros H. inversion H as [|? ? [Hd _] _]; subst. congruence.
      * intros e' H'. now injection H' as <-.
Qed.

(** X2: the report returns normally exactly when every vulnerability
    entry has a "type" and a "description"; otherwise it raises [KeyError]
    (at the first entry that lacks one), and nothing else is ever raised by
    it. *)
Theorem report_outcome_by_keys : forall p : Process,
  (snd (generate_report p) = inl tt <-> reportable (results (scanner p)))
  /\ (forall e, snd (generate_report p) = inr e -> exc_cls e = KeyError).
Proof.
  intros p.
  assert (H : outcome_spec (results (scanner p)) (report_outcome (results (scanner p)))
                generate_report); [|exact (H p eq_refl)].
  set (r := results (scanner p)). unfold generate_report.
  do 3 (apply outcome_after_prints; [apply prints_print|]).
  apply outcome_self_results.
  apply outcome_before_prints.
  { do 3 (apply prints_seq;
          [apply prints_when, prints_seq;
           [apply prints_print | apply prints_for_each; intros; apply prints_print]|]).
    cbv zeta.
    repeat (apply prints_seq || apply prints_print || apply prints_when). }
  intros q _. unfold report_outcome, reportable.
  destruct (vulnerabilities r) as [|v vs] eqn:Ev; cbn [nonempty].
  - cbn. split; [split; auto | discriminate].
  - unfold bind, print. apply report_loop_outcome.
Qed.

Example report_key_error :
  let p := mkProcess (mkScanner "h" 1 (add_vulnerability [("payload", "x")] empty_results))
                     [] [] in
  snd (generate_report p) = inr (mkExc KeyError "'type'").
Proof. reflexivity. Qed.

(** ** The scan *)

Lemma bind_assoc_at {A B C} (c : M A) (k : A -> M B) (h : B -> M C) (p : Process) :
  (y <- (x <- c ;; k x) ;; h y) p = (x <- c ;; y <- k x ;; h y) p.
Proof. unfold bind. now destruct (c p) as [p' [a|e]]. Qed.

Lemma bind_cong_at {A B} (c : M A) (k k' : A -> M B) (p : Process) :
  (forall a q, k a q = k' a q) -> (x <- c ;; k x) p = (x <- c ;; k' x) p.
Proof. intros H. unfold bind. destruct (c p) as [p' [a|e]]; [apply H | reflexivity]. Qed.

(** The scan is the probes, then the report. *)
Lemma run_scan_split (w : World) (p : Process) :
  run_scan w p = (scan_probes w ;; generate_report) p.
Proof.
  unfold run_scan, scan_probes. symmetry.
  repeat (rewrite bind_assoc_at; apply bind_cong_at; intros _ ?).
  reflexivity.
Qed.

Lemma keeps_reportable_refl (p : Process) : keeps_reportable p p.
Proof. intros H. exact H. Qed.

Lemma keeps_reportable_trans (p q r : Process) :
  keeps_reportable p q -> keeps_reportable q r -> keeps_reportable p r.
Proof. unfold keeps_reportable. auto. Qed.

Lemma keeps_reportable_finding (v : pydict) (p : Process) :
  dict_get "type" v <> None ->
  dict_get "description" v <> None ->
  keeps_reportable p (map_results (add_vulnerability v) p).
Proof.
  intros Ht Hd H. unfold reportable, map_results in *. cbn.
  apply Forall_app. split; [exact H | constructor; [now split | constructor]].
Qed.

(** Every vulnerability entry the probes build has a type and a
    description. *)
Lemma scan_probes_keep_reportable (w : World) :
  preserves keeps_reportable (scan_probes w).
Proof.
  apply (shape_scan_probes keeps_reportable keeps_reportable_refl
           keeps_reportable_trans);
    try (intros; apply keeps_reportable_finding; discriminate);
    intros; intros H; exact H.
Qed.

(** X3: the report cannot fail in a scan.  On a scanner whose results are
    reportable (a new scanner's are), whenever the five probes return, the
    report is printed in full, with the score and the tier of the results
    the probes left, and [run_scan] returns normally without changing those
    results. *)
Theorem report_follows_probes : forall (w : World) (p p' : Process),
  reportable (results (scanner p)) ->
  scan_probes w p = (p', inl tt) ->
  exists before after,
    run_scan w p
    = (printed (before ++ score_lines (results (scanner p')) ++ after) p', inl tt).
Proof.
  intros w p p' Hr Hp. rewrite run_scan_split. unfold bind at 1. rewrite Hp.
  apply generate_report_prints_score; [|reflexivity].
  pose proof (scan_probes_keep_reportable w p Hr) as H. now rewrite Hp in H.
Qed.

Lemma report_follows_probes_witness :
  exists before after,
    run_scan echo_world (initial_process default_args)
    = (printed (before
                ++ score_lines
                     (results (scanner (fst (scan_probes echo_world
                                               (initial_process default_args)))))
                ++ after)
         (fst (scan_probes echo_world (initial_process default_args))), inl tt).
Proof.
  refine (report_follows_probes echo_world (initial_process default_args) _ _ _).
  - constructor.
  - vm_compute. reflexivity.
Defined.

(** ** The dependency probe *)

Lemma only_info_added_refl (p : Process) : only_info_added p p.
Proof. unfold only_info_added. repeat split; apply grows_refl. Qed.

Lemma only_info_added_trans (p q r : Process) :
  only_info_added p q -> only_info_added q r -> only_info_added p r.
Proof.
  unfold only_info_added.
  intros (A1 & A2 & A3 & A4 & A5 & A6 & A7) (B1 & B2 & B3 & B4 & B5 & B6 & B7).
  repeat split; try congruence. eapply grows_trans; eassumption.
Qed.

Lemma only_info_added_printed (ls : list str) (p : Process) :
  only_info_added p (printed ls p).
Proof. unfold only_info_added. cbn. repeat split. apply grows_refl. Qed.

Lemma only_info_added_info (s : str) (p : Process) :
  only_info_added p (map_results (add_info s) p).
Proof. unfold only_info_added. cbn. repeat split. apply grows_app. Qed.

Lemma probe_dependency_handled (w : World) (entry : str * str) (p : Process) :
  dependency_handled w entry ->
  probe_dependency w entry p
  = (map_results (add_info (dependency_finding w entry)) p, inl tt).
Proof.
  destruct entry as [dep risk].
  unfold dependency_handled, dependency_finding, probe_dependency, try_except, bind, call.
  cbn [fst snd].
  destruct (subprocess_run w [dep; "--version"]) as [[returncode out]|e].
  - intros _. cbn [ret]. now destruct (returncode =? 0).
  - intros H. cbn [raise]. now rewrite H.
Qed.

Lemma map_results_info_nil (p : Process) :
  map_results (fun r => mkResults (vulnerabilities r) (warnings r) (info r ++ []) (passed r)) p
  = p.
Proof.
  destruct p as [[h n [v wa i pa]] out fs]. unfold map_results. cbn.
  now rewrite app_nil_r.
Qed.

Lemma dependency_loop_handled (w : World) (l : list (str * str)) :
  forall p : Process,
  Forall (dependency_handled w) l ->
  for_each l (probe_dependency w) p
  = (map_results
       (fun r => mkResults (vulnerabilities r) (warnings r)
                   (info r ++ map (dependency_finding w) l) (passed r)) p, inl tt).
Proof.
  induction l as [|x t IH]; intros p Hl.
  - cbn [for_each map ret]. now rewrite map_results_info_nil.
  - inversion Hl as [|? ? Hx Ht]; subst.
    cbn [for_each]. unfold bind at 1. rewrite (probe_dependency_handled w x p Hx).
    rewrite IH by assumption. unfold map_results. cbn. now rewrite <- app_assoc.
Qed.

(** X4: the dependency probe touches the info bucket only.  Whatever the
    subprocesses do, it leaves the target, the files and the vulnerability,
    warning and passed buckets alone and never takes an Info finding back.
    When every [dep --version] returns, times out or is not found, the probe
    returns normally and has appended exactly one Info finding for each of
    the five registered tools, in the order of the registry. *)
Theorem dependency_probe_only_informs : forall (w : World) (p : Process),
  only_info_added p (fst (scan_system_dependencies w p))
  /\ (Forall (dependency_handled w) dependencies ->
      snd (scan_system_dependencies w p) = inl tt
      /\ info (results (scanner (fst (scan_system_dependencies w p))))
         = (info (results (scanner p)) ++ map (dependency_finding w) dependencies)
      /\ length (map (dependency_finding w) dependencies) = 5%nat).
Proof.
  intros w p. split.
  - apply (shape_scan_system_dependencies only_info_added only_info_added_refl
             only_info_added_trans only_info_added_printed only_info_added_info).
  - intros H. unfold scan_system_dependencies. rewrite bind_print.
    rewrite (dependency_loop_handled w dependencies _ H). repeat split.
Qed.

Lemma dependency_probe_only_informs_witness :
  info (results (scanner (fst (scan_system_dependencies unreachable_world
                                 (initial_process default_args)))))
  = ["ffmpeg: ffmpeg version 6.0 - Risk: CVE database check needed";
     "xdotool: Not available"; "ydotool: Not available";
     "wl-clipboard: Not available"; "xclip: Not found"].
Proof.
  refine (proj1 (proj2 (proj2 (dependency_probe_only_informs unreachable_world
                                 (initial_process default_args)) _))).
  repeat constructor.
Defined.

(** ** The signaling probe *)

(** A [try] whose handlers take every [Exception], nothing else, and do not
    raise lets no [Exception] out. *)
Lemma try_except_contains {A} (body : M A) (handler : exc -> option (M A)) :
  (forall e, is_Exception e = true ->
     exists h, handler e = Some h /\ forall q, exists q' a, h q = (q', inl a)) ->
  (forall e, is_Exception e = false -> handler e = None) ->
  forall p e, snd (try_except body handler p) = inr e -> is_Exception e = false.
Proof.
  intros Hh Hn p e. unfold try_except.
  destruct (body p) as [p' [a|e']]; cbn [snd]; [discriminate|].
  destruct (is_Exception e') eqn:He'.
  - destruct (Hh e' He') as (h & -> & Hq). destruct (Hq p') as (q' & a & ->).
    discriminate.
  - rewrite (Hn e' He'). cbn [snd]. intros H. injection H as <-. exact He'.
Qed.

(** X5: no [Exception] leaves the signaling probe or the network probe:
    whatever the target does, each of them returns normally, or is cut short
    by an exception outside [Exception] (an interrupt). *)
Theorem probes_contain_exceptions : forall (w : World) (p : Process) (e : exc),
  (snd (scan_signaling_server w p) = inr e -> is_Exception e = false)
  /\ (snd (scan_network_security w p) = inr e -> is_Exception e = false).
Proof.
  intros w p e. split.
  - unfold scan_signaling_server. rewrite bind_print.
    unfold bind at 1 2. unfold self_target_host, self_target_port. cbn [fst snd].
    apply try_except_contains.
    + intros e' ->. eexists. split; [reflexivity|]. intros q. now eexists _, _.
    + intros e' ->. reflexivity.
  - unfold scan_network_security. rewrite bind_print.
    unfold bind at 1 2. unfold self_target_host, self_target_port. cbn [fst snd].
    apply try_except_contains.
    + intros e' He'. destruct (is_RequestException e').
      * eexists. split; [reflexivity|]. intros q. now eexists _, _.
      * rewrite He'. eexists. split; [reflexivity|]. intros q. now eexists _, _.
    + intros e' He'. rewrite He'.
      unfold is_Exception, is_RequestException in *. now destruct (exc_cls e').
Qed.

(** X6: when the connection cannot be made, the signaling probe records
    exactly one Warning finding, which carries the message of the exception,
    and returns normally; no payload is sent, and no other bucket changes. *)
Theorem signaling_connection_failure : forall (w : World) (p : Process) (e : exc),
  ws_connect w (signaling_uri p) = Some e ->
  is_Exception e = true ->
  scan_signaling_server w p
  = (map_results
       (add_warning ("Could not connect to signaling server: " ++ exc_str e))
       (printed ["🔍 Scanning Signaling Server..."] p), inl tt).
Proof.
  intros w p e Hc He. unfold scan_signaling_server. rewrite bind_print.
  unfold bind, self_target_host, self_target_port, try_except, call_.
  cbn [scanner printed target_host target_port]. unfold signaling_uri in Hc.
  rewrite Hc. cbn [raise]. rewrite He. reflexivity.
Qed.

Lemma signaling_connection_failure_witness :
  warnings (results (scanner (fst (scan_signaling_server unreachable_world
                                     (initial_process default_args)))))
  = [("Could not connect to signaling server: " ++ exc_str connection_refused)].
Proof.
  rewrite (signaling_connection_failure unreachable_world (initial_process default_args)
             connection_refused eq_refl eq_refl).
  reflexivity.
Defined.

Lemma take_length (n : nat) (s : str) : (length (Str.take n s) <= n)%nat.
Proof. apply firstn_le_length. Qed.

Lemma filter_all {A} (f : A -> bool) (l : list A) :
  (forall x, In x l -> f x = true) -> filter f l = l.
Proof.
  induction l as [|x t IH]; intros H; [reflexivity|]. cbn [filter].
  rewrite (H x (or_introl eq_refl)). f_equal. apply IH. intros y Hy. apply H. now right.
Qed.

Lemma filter_none {A} (f : A -> bool) (l : list A) :
  (forall x, In x l -> f x = false) -> filter f l = [].
Proof.
  induction l as [|x t IH]; intros H; [reflexivity|]. cbn [filter].
  rewrite (H x (or_introl eq_refl)). apply IH. intros y Hy. apply H. now right.
Qed.

(** X7: the signaling probe against a server that answers in text frames
    or stays silent.  When the connection is made and every exchange ends
    with a text frame or the time-out, the probe adds one Vulnerability
    finding for each payload whose answer lacks the word "error", in the
    order of the payloads, one Passed finding, and no Warning or Info: five
    findings when every answer lacks the word, none when every answer holds
    it or never comes.  Each finding is an Input Validation entry that keeps
    the first 100 characters of its payload.  A binary frame in answer to
    the first payload ends the probe with the Warning of a failed
    connection alone. *)
Theorem signaling_probe_against_responder : forall (w : World) (p : Process),
  ws_connect w (signaling_uri p) = None ->
  let r := results (scanner p) in
  let r' := results (scanner (fst (scan_signaling_server w p))) in
  (Forall (completes w) malicious_payloads ->
   let sent := filter (accepted w) malicious_payloads in
   let found := map input_validation_finding sent in
   snd (scan_signaling_server w p) = inl tt
   /\ vulnerabilities r' = vulnerabilities r ++ found
   /\ passed r' = passed r ++ ["WebSocket connection established successfully"]
   /\ warnings r' = warnings r
   /\ info r' = info r
   /\ (length found <= 5)%nat
   /\ ((forall x, In x malicious_payloads -> accepted w x = true) -> length found = 5%nat)
   /\ ((forall x, In x malicious_payloads -> accepted w x = false) -> found = [])
   /\ map (dict_get "type") found = map (fun _ => Some "Input Validation") sent
   /\ map (dict_get "payload") found = map (fun x => Some (firstn 100 x)) sent
   /\ Forall bounded_payload_evidence found)
  /\ (forall (first : str) (rest : list str) (data : list N),
        malicious_payloads = first :: rest ->
        ws_send w first = None ->
        ws_recv w first = inl (Binary data) ->
        snd (scan_signaling_server w p) = inl tt
        /\ vulnerabilities r' = vulnerabilities r
        /\ passed r' = passed r
        /\ info r' = info r
        /\ warnings r'
           = warnings r
               ++ ["Could not connect to signaling server: a bytes-like object is required, not 'str'"]).
Proof.
  intros w p Hc r r'. subst r r'. split.
  - intros Hl sent found.
    rewrite (signaling_probe_completes w p Hc Hl). cbn [fst snd].
    repeat split.
    + subst found sent. rewrite length_map.
      pose proof (filter_length_le (accepted w) malicious_payloads) as H.
      change (length malicious_payloads) with 5%nat in H. exact H.
    + intros H. subst found sent. rewrite (filter_all _ _ H). reflexivity.
    + intros H. subst found sent. now rewrite (filter_none _ _ H).
    + subst found. now rewrite map_map.
    + subst found. now rewrite map_map.
    + subst found sent. apply Forall_forall. intros v Hv. apply in_map_iff in Hv.
      destruct Hv as (x & <- & Hx). apply filter_In in Hx. destruct Hx as [Hx _].
      exists x. split; [exact Hx|]. split; [reflexivity | apply take_length].
  - intros first rest data Hm Hs Hr.
    assert (E : scan_signaling_server w p
                = (map_results
                     (add_warning
                        "Could not connect to signaling server: a bytes-like object is required, not 'str'")
                     (printed ["🔍 Scanning Signaling Server..."] p), inl tt)).
    { unfold scan_signaling_server.
      unfold bind at 1 2 3. unfold print, self_target_host, self_target_port.
      cbn [scanner printed target_host target_port].
      unfold signaling_uri in Hc. unfold try_except, bind, call_.
      rewrite Hc. cbn [ret]. rewrite Hm. cbn [for_each].
      unfold bind, probe_payload, try_except, bind, call_, call.
      rewrite Hs, Hr. reflexivity. }
    rewrite E. cbn. repeat split.
Qed.

Lemma signaling_probe_against_responder_witness :
  length (vulnerabilities
            (results (scanner (fst (scan_signaling_server echo_world
                                      (initial_process default_args)))))) = 5%nat
  /\ warnings (results (scanner (fst (scan_signaling_server binary_world
                                        (initial_process default_args)))))
     = ["Could not connect to signaling server: a bytes-like object is required, not 'str'"].
Proof.
  split.
  - destruct (proj1 (signaling_probe_against_responder echo_world
                       (initial_process default_args) eq_refl))
      as (_ & Hv & _ & _ & _ & _ & Hall & _).
    + repeat constructor.
    + rewrite Hv. apply Hall. intros x Hx.
      repeat (destruct Hx as [<-|Hx]; [vm_compute; reflexivity|]). destruct Hx.
  - destruct (proj2 (signaling_probe_against_responder binary_world
                       (initial_process default_args) eq_refl)
                _ _ [111; 107]%N eq_refl eq_refl eq_refl)
      as (_ & _ & _ & _ & Hw).
    exact Hw.
Defined.

(** ** The file permission probe *)

(** X8: only the low nine bits of [st_mode] decide the mode string, hence
    the finding: the file type bits and the setuid, setgid and sticky bits
    are ignored (a setuid 4755 file is classified like a 755 file). *)
Theorem mode_ignores_high_bits : forall (m1 m2 : N) (path : str) (p : Process),
  (64 <= m1)%N -> (64 <= m2)%N ->
  (m1 mod 512 = m2 mod 512)%N ->
  mode_of m1 = mode_of m2
  /\ classify_mode path (mode_of m1) p = classify_mode path (mode_of m2) p.
Proof.
  intros m1 m2 path p H1 H2 E.
  assert (Hdigits : forall m, (64 <= m)%N ->
            mode_of m
            = [ Str.oct_digit (m mod 512 / 64);
                Str.oct_digit ((m mod 512 / 8) mod 8);
                Str.oct_digit ((m mod 512) mod 8) ]).
  { intros m Hm. set (x := (m mod 512)%N).
    assert (Hx : (x < 512)%N) by (apply N.mod_upper_bound; lia).
    pose proof (N.div_mod x 8 ltac:(lia)) as D1.
    pose proof (N.div_mod (x / 8) 8 ltac:(lia)) as D2.
    assert (D3 : (x / 8 / 8 = x / 64)%N) by (now rewrite N.Div0.div_div).
    rewrite D3 in D2.
    pose proof (N.mod_upper_bound x 8 ltac:(lia)).
    pose proof (N.mod_upper_bound (x / 8) 8 ltac:(lia)).
    assert ((x / 64 < 8)%N) by (apply N.Div0.div_lt_upper_bound; lia).
    apply mode_of_low_bits; try assumption. fold x. lia. }
  assert (Hm : mode_of m1 = mode_of m2).
  { rewrite (Hdigits m1 H1), (Hdigits m2 H2), E. reflexivity. }
  split; [exact Hm | now rewrite Hm].
Qed.

Lemma mode_ignores_high_bits_witness :
  mode_of 35309 = mode_of 33261 /\ mode_of 33261 = "755".
Proof.
  split; [|reflexivity].
  refine (proj1 (mode_ignores_high_bits 35309 33261 "/usr/bin/smoldesk"
                   (initial_process default_args) _ _ _)); reflexivity || lia.
Defined.

Lemma examined_none (p : Process) : examined_at_most 0 p p.
Proof.
  unfold examined_at_most. repeat split. exists [], [], [].
  rewrite !app_nil_r. repeat split; auto.
Qed.

Lemma examined_more (n m : nat) (p q : Process) :
  (n <= m)%nat -> examined_at_most n p q -> examined_at_most m p q.
Proof.
  unfold examined_at_most.
  intros Hnm (A1 & A2 & A3 & A4 & A5 & vs & ws & ps & B1 & B2 & B3 & B4 & B5).
  repeat split; try assumption. exists vs, ws, ps. repeat split; try assumption. lia.
Qed.

Lemma examined_trans (n m : nat) (p q r : Process) :
  examined_at_most n p q -> examined_at_most m q r -> examined_at_most (n + m) p r.
Proof.
  unfold examined_at_most.
  intros (A1 & A2 & A3 & A4 & A5 & vs & ws & ps & B1 & B2 & B3 & B4 & B5)
         (C1 & C2 & C3 & C4 & C5 & vs' & ws' & ps' & D1 & D2 & D3 & D4 & D5).
  repeat split; try congruence.
  exists (vs ++ vs'), (ws ++ ws'), (ps ++ ps').
  rewrite D1, D2, D3, B1, B2, B3, !length_app, <- !app_assoc.
  repeat split; [lia | now apply Forall_app].
Qed.

Lemma classify_mode_examined (path mode : str) (p : Process) :
  examined_at_most 1 p (fst (classify_mode path mode p)).
Proof.
  unfold classify_mode.
  destruct (str_in mode ["777"; "776"; "666"]) eqn:E;
    [|destruct (str_in mode ["755"; "644"])];
    unfold examined_at_most; cbn; repeat split.
  - exists [file_permissions_finding path mode], [], [].
    rewrite !app_nil_r. repeat split; auto.
    constructor; [|constructor]. now exists path, mode.
  - exists [], [], [(path ++ ": Safe permissions (" ++ mode ++ ")")].
    rewrite !app_nil_r. repeat split; auto.
  - exists [], [(path ++ ": Unusual permissions (" ++ mode ++ ")")], [].
    rewrite !app_nil_r. repeat split; auto.
Qed.

Lemma probe_file_examined (w : World) (file_path : str) (p : Process) :
  examined_at_most 1 p (fst (probe_file w file_path p)).
Proof.
  unfold probe_file, bind.
  destruct (Pathlib.expanduser w (Pathlib.parse file_path)) as [expanded|e];
    cbn [call ret raise fst];
    [|apply examined_more with 0%nat; [lia | apply examined_none]].
  destruct (path_exists w (Pathlib.to_str expanded)) as [[|]|e]; cbn [call ret raise when fst];
    try (apply examined_more with 0%nat; [lia | apply examined_none]).
  destruct (path_st_mode w (Pathlib.to_str expanded)) as [st_mode|e];
    cbn [call ret raise fst];
    [apply classify_mode_examined
    | apply examined_more with 0%nat; [lia | apply examined_none]].
Qed.

Lemma file_loop_examined (w : World) (l : list str) : forall p : Process,
  examined_at_most (length l) p (fst (for_each l (probe_file w) p)).
Proof.
  induction l as [|x t IH]; intros p; [apply examined_none|].
  cbn [for_each length]. unfold bind.
  pose proof (probe_file_examined w x p) as Hx.
  destruct (probe_file w x p) as [q [[]|e]]; cbn [fst] in *.
  - apply (examined_trans 1 (length t) p q _ Hx (IH q)).
  - apply examined_more with 1%nat; [lia | exact Hx].
Qed.

(** X9: what the file permission probe can add.  Whether it returns or
    raises, it adds at most four findings, one for each checked path, and
    never an Info finding; every Vulnerability finding it adds is a File
    Permissions entry whose mode is 777, 776 or 666; the target and the
    files are left alone, and the output gains the banner of the probe
    only. *)
Theorem file_probe_findings_bounded : forall (w : World) (p : Process),
  examined_at_most 4 (printed ["🔍 Scanning File Permissions..."] p)
    (fst (scan_file_permissions w p)).
Proof.
  intros w p. unfold scan_file_permissions. rewrite bind_print.
  apply (file_loop_examined w critical_files).
Qed.

(** ** The command and its artifact *)

Lemma output_given_inv (args : Args) (path : str) :
  output_given args = Some path -> output args = Some path /\ path <> [].
Proof.
  unfold output_given. destruct (output args) as [[|c s]|]; intros H;
    try discriminate. injection H as <-. split; [reflexivity | discriminate].
Qed.

Lemma file_set_set (path a b : str) (fs : Files) :
  file_set path b (file_set path a fs) = file_set path b fs.
Proof.
  induction fs as [|[q c] t IH]; cbn [file_set].
  - now rewrite str_eqb_refl.
  - destruct (Str.eqb q path) eqn:E; cbn [file_set]; rewrite E; [reflexivity|].
    now rewrite IH.
Qed.

Lemma file_get_set_other (path q content : str) (fs : Files) :
  q <> path -> file_get q (file_set path content fs) = file_get q fs.
Proof.
  intros Hq. induction fs as [|[q' c] t IH]; cbn [file_set file_get].
  - destruct (str_eqb_spec path q) as [->|_]; [congruence | reflexivity].
  - destruct (str_eqb_spec q' path) as [->|Hne]; cbn [file_get].
    + destruct (str_eqb_spec path q) as [->|_]; [congruence | reflexivity].
    + now rewrite IH.
Qed.

Lemma prefix_of_refl {A} (l : list A) : prefix_of l l.
Proof. exists []. now rewrite app_nil_r. Qed.

Lemma prefix_of_firstn {A} (n : nat) (l : list A) : prefix_of (firstn n l) l.
Proof. exists (skipn n l). now rewrite firstn_skipn. Qed.

(** What the [try] block of [main] does to the files: nothing, or, after
    a completed scan and a successful [open], the file at the output path
    holds the JSON text of the results or the part of it that got
    through. *)
Lemma main_body_files (w : World) (args : Args) (p : Process) :
  let p' := fst (main_body w args p) in
  let text := Json.dumps (Json.of_results (results (scanner p'))) in
  files p' = files p
  \/ exists path content,
       output_given args = Some path
       /\ snd (run_scan w p) = inl tt
       /\ open_write w path = None
       /\ files p' = file_set path content (files p)
       /\ prefix_of content text
       /\ (snd (main_body w args p) = inl tt -> content = text).
Proof.
  cbv zeta. unfold main_body, bind.
  pose proof (run_scan_same_files w p) as Hf. unfold same_files in Hf.
  destruct (run_scan w p) as [p1 [[]|e]]; cbn [fst snd] in *; [|now left].
  destruct (output_given args) as [path|] eqn:Eo; [|now left].
  unfold call_. destruct (open_write w path) as [e|] eqn:Eopen; [now left|].
  right. exists path.
  unfold write_file, self_results, dump_and_close. cbn [ret scanner written].
  destruct (file_write w path _) as [[n e]|].
  - eexists. cbn. rewrite file_set_set, Hf.
    split; [reflexivity|]. split; [reflexivity|]. split; [exact Eopen|].
    split; [reflexivity|]. split; [apply prefix_of_firstn | discriminate].
  - eexists. cbn. rewrite file_set_set, Hf.
    split; [reflexivity|]. split; [reflexivity|]. split; [exact Eopen|].
    split; [reflexivity|]. split; [apply prefix_of_refl | reflexivity].
Qed.

(** The handlers of [main] only print. *)
Lemma main_keeps_body (w : World) (args : Args) (p : Process) :
  scanner (fst (main w args p)) = scanner (fst (main_body w args p))
  /\ files (fst (main w args p)) = files (fst (main_body w args p))
  /\ (snd (main w args p) = inl tt -> snd (main_body w args p) = inl tt).
Proof.
  unfold main, try_except.
  destruct (main_body w args p) as [p1 [[]|e]]; cbn [fst snd]; [auto|].
  destruct (is_KeyboardInterrupt e); [cbn; repeat split; discriminate|].
  destruct (is_Exception e); cbn; repeat split; discriminate.
Qed.

Lemma main_files (w : World) (args : Args) (p : Process) :
  let p' := fst (main w args p) in
  let text := Json.dumps (Json.of_results (results (scanner p'))) in
  files p' = files p
  \/ exists path content,
       output_given args = Some path
       /\ snd (run_scan w p) = inl tt
       /\ open_write w path = None
       /\ files p' = file_set path content (files p)
       /\ prefix_of content text
       /\ (snd (main w args p) = inl tt -> content = text).
Proof.
  cbv zeta. destruct (main_keeps_body w args p) as (Hs & Hf & Ho).
  rewrite Hs, Hf.
  destruct (main_body_files w args p) as [H|(path & content & H1 & H2 & H3 & H4 & H5 & H6)];
    [now left|].
  right. exists path, content. repeat split; auto.
Qed.

(** What [main] leaves in the files, case by case. *)
Lemma main_files_cases (w : World) (args : Args) (p : Process) :
  let p' := fst (main w args p) in
  let text := Json.dumps (Json.of_results (results (scanner p'))) in
  (snd (run_scan w p) <> inl tt -> files p' = files p)
  /\ (output_given args = None -> files p' = files p)
  /\ (forall path e,
        output_given args = Some path -> open_write w path = Some e ->
        files p' = files p)
  /\ (forall path,
        output_given args = Some path ->
        snd (run_scan w p) = inl tt ->
        open_write w path = None ->
        files p'
        = file_set path
            match file_write w path text with
            | None => text
            | Some (n, _) => firstn n text
            end (files p)).
Proof.
  cbv zeta. destruct (main_keeps_body w args p) as (Hs & Hf & _).
  rewrite Hs, Hf. clear Hs Hf. unfold main_body, bind.
  pose proof (run_scan_same_files w p) as Hf. unfold same_files in Hf.
  destruct (run_scan w p) as [p1 [[]|e]]; cbn [fst snd] in *.
  - split; [congruence|].
    destruct (output_given args) as [path|].
    + split; [discriminate|]. unfold call_.
      destruct (open_write w path) as [e|] eqn:Eopen; cbn [raise ret fst].
      * split; [intros q e' H _; exact Hf|].
        intros q H _ Hq. injection H as <-. congruence.
      * split; [intros q e' H Hq; injection H as <-; congruence|].
        intros q H _ _. injection H as <-.
        unfold self_results, dump_and_close. cbn [write_file scanner written].
        destruct (file_write w path (Json.dumps (Json.of_results (results (scanner p1)))))
          as [[n e]|] eqn:Ew;
          unfold write_file, bind, print, raise;
          cbn [fst snd scanner files written printed];
          rewrite Ew, file_set_set, Hf; reflexivity.
    + split; [intros _; exact Hf|]. split; discriminate.
  - split; [intros _; exact Hf|]. split; [intros _; exact Hf|].
    split; [intros q e' _ _; exact Hf|]. intros q _ H. discriminate.
Qed.

(** X10: the artifact is written last, and may stay unfinished.  A run of
    the command touches no file when the scan fails or is interrupted, when
    no output path (or an empty one) is given, and when the file cannot be
    opened.  When the scan and its report ran to the end and the file at
    the output path was opened, that file is the one file touched: it holds
    the JSON text of the final results when the write goes through, and the
    part of the text that got through when the write fails. *)
Theorem artifact_after_completed_scan : forall (w : World) (args : Args),
  let p := fst (run_main w args) in
  let text := Json.dumps (Json.of_results (results (scanner p))) in
  (snd (run_scan w (initial_process args)) <> inl tt -> files p = [])
  /\ (output_given args = None -> files p = [])
  /\ (forall path e,
        output_given args = Some path -> open_write w path = Some e -> files p = [])
  /\ (forall path,
        output_given args = Some path ->
        snd (run_scan w (initial_process args)) = inl tt ->
        open_write w path = None ->
        files p = [(path, match file_write w path text with
                          | None => text
                          | Some (n, _) => firstn n text
                          end)]).
Proof.
  intros w args. cbv zeta. rewrite fst_run_main.
  exact (main_files_cases w args (initial_process args)).
Qed.

(** A scan that fails leaves no file; when the disk is full after 40
    characters, the command fails with status 1 and leaves the first 40
    characters of the artifact. *)
Lemma artifact_after_completed_scan_witness :
  let args := mkArgs "localhost" 3000 (Some "/tmp/report.json") in
  files (fst (run_main denied_world args)) = []
  /\ snd (run_main full_disk_world args) = 1
  /\ files (fst (run_main full_disk_world args))
     = [("/tmp/report.json",
         "{" ++ Str.nl ++ "  " ++ Str.q "vulnerabilities" ++ ": [" ++ Str.nl
             ++ "    {" ++ Str.nl ++ "      " ++ Str.dq ++ "ty")].
Proof.
  intros args. split; [|split; [vm_compute; reflexivity|]].
  - apply (proj1 (artifact_after_completed_scan denied_world args)).
    vm_compute. discriminate.
  - rewrite (proj2 (proj2 (proj2 (artifact_after_completed_scan full_disk_world args)))
               "/tmp/report.json" eq_refl ltac:(vm_compute; reflexivity) eq_refl).
    vm_compute. reflexivity.
Defined.

(** X11: when the output file cannot be opened, the scan has run and its
    report is already printed; the command then prints "Scan failed: " with
    the message of the error, writes nothing, and exits with status 1. *)
Theorem unwritable_output_fails_after_scan :
  forall (w : World) (args : Args) (path : str) (p1 : Process) (e : exc),
  output_given args = Some path ->
  run_scan w (initial_process args) = (p1, inl tt) ->
  open_write w path = Some e ->
  is_Exception e = true ->
  run_main w args = (printed [(Str.nl ++ "Scan failed: " ++ exc_str e)] p1, 1)
  /\ files (fst (run_main w args)) = [].
Proof.
  intros w args path p1 e Ho Hrun Hopen He.
  pose proof (run_scan_same_files w (initial_process args)) as Hf.
  unfold same_files in Hf. rewrite Hrun in Hf. cbn [fst initial_process files] in Hf.
  assert (Hk : is_KeyboardInterrupt e = false).
  { unfold is_Exception, is_KeyboardInterrupt in *. now destruct (exc_cls e). }
  assert (E : run_main w args
              = (printed [(Str.nl ++ "Scan failed: " ++ exc_str e)] p1, 1)).
  { unfold run_main, main, try_except, main_body, bind. rewrite Hrun, Ho.
    unfold call_. rewrite Hopen. cbn [raise]. rewrite Hk, He. reflexivity. }
  split; [exact E|]. rewrite E. exact Hf.
Qed.

Lemma unwritable_output_fails_after_scan_witness :
  snd (run_main readonly_world (mkArgs "localhost" 3000 (Some "/report.json"))) = 1.
Proof.
  rewrite (proj1 (unwritable_output_fails_after_scan readonly_world
                    (mkArgs "localhost" 3000 (Some "/report.json"))
                    "/report.json"
                    (fst (run_scan readonly_world
                            (initial_process
                               (mkArgs "localhost" 3000 (Some "/report.json")))))
                    (mkExc PermissionError "[Errno 13] Permission denied: '/report.json'")
                    eq_refl ltac:(vm_compute; reflexivity) eq_refl eq_refl)).
  reflexivity.
Defined.

Lemma plain_ascii_app (a b : str) :
  plain_ascii (a ++ b) = plain_ascii a && plain_ascii b.
Proof. apply forallb_app. Qed.

Lemma plain_escape_u (n : N) : (n < 65536)%N -> plain_ascii (Json.escape_u n) = true.
Proof.
  intros H.
  assert (Hd : forall d, (d < 16)%N -> plain_char (Json.hex_digit d) = true).
  { apply (forallb_below _ 16). reflexivity. }
  unfold Json.escape_u. cbn [app plain_ascii forallb].
  rewrite !Hd; [reflexivity | | | |]; divlia.
Qed.

Lemma plain_escape_char (c : N) : plain_ascii (Json.escape_char c) = true.
Proof.
  unfold Json.escape_char.
  repeat match goal with
         | |- context [if (c =? ?k)%N then _ else _] =>
             destruct (c =? k)%N; [reflexivity|]
         end.
  destruct ((32 <=? c) && (c <=? 126))%N eqn:E.
  - cbn. unfold plain_char. now rewrite E.
  - destruct (N.ltb_spec c 65536) as [Hb|Hb]; [now apply plain_escape_u|].
    cbv zeta. rewrite plain_ascii_app.
    change 1023%N with (N.ones 10). rewrite !N.land_ones.
    rewrite !plain_escape_u; [reflexivity | |].
    + change 56320%N with (N.shiftl 55 10).
      rewrite lor_shiftl_low by (apply N.mod_upper_bound; discriminate).
      change (2 ^ 10)%N with 1024%N. divlia.
    + change 55296%N with (N.shiftl 54 10).
      rewrite lor_shiftl_low by (apply N.mod_upper_bound; discriminate).
      change (2 ^ 10)%N with 1024%N. divlia.
Qed.

Lemma plain_escape (s : str) : plain_ascii (Json.escape s) = true.
Proof.
  induction s as [|c s IH]; [reflexivity|]. unfold Json.escape. cbn [flat_map].
  fold (Json.escape s). now rewrite plain_ascii_app, plain_escape_char, IH.
Qed.

Lemma plain_encode_string (s : str) : plain_ascii (Json.encode_string s) = true.
Proof.
  unfold Json.encode_string. now rewrite !plain_ascii_app, plain_escape.
Qed.

Lemma plain_newline_indent (level : nat) : plain_ascii (Json.newline_indent level) = true.
Proof.
  unfold Json.newline_indent. rewrite plain_ascii_app. cbn [Str.nl].
  induction (2 * level)%nat as [|n IH]; [reflexivity | exact IH].
Qed.

Lemma plain_items_tail (level : nat) (items : list str) :
  Forall (fun x => plain_ascii x = true) items ->
  plain_ascii (Json.items_tail level items) = true.
Proof.
  induction 1 as [|x t Hx Ht IH]; [reflexivity|]. cbn [Json.items_tail].
  now rewrite !plain_ascii_app, plain_newline_indent, Hx, IH.
Qed.

Lemma plain_bracket (opening closing : str) (level : nat) (items : list str) :
  plain_ascii opening = true -> plain_ascii closing = true ->
  Forall (fun x => plain_ascii x = true) items ->
  plain_ascii (Json.bracket opening closing level items) = true.
Proof.
  intros Ho Hc Hi. destruct Hi as [|x t Hx Ht]; unfold Json.bracket.
  - now rewrite plain_ascii_app, Ho, Hc.
  - now rewrite !plain_ascii_app, Ho, Hc, !plain_newline_indent, Hx, plain_items_tail.
Qed.

Lemma plain_dumps_at : forall (v : Json.value) (level : nat),
  plain_ascii (Json.dumps_at level v) = true.
Proof.
  induction v as [s|l IHl|d IHd] using value_nested_ind; intros level;
    cbn [Json.dumps_at].
  - apply plain_encode_string.
  - apply plain_bracket; try reflexivity.
    apply Forall_forall. intros x Hx. apply in_map_iff in Hx.
    destruct Hx as (y & <- & Hy). rewrite Forall_forall in IHl. now apply IHl.
  - apply plain_bracket; try reflexivity.
    apply Forall_forall. intros x Hx. apply in_map_iff in Hx.
    destruct Hx as (y & <- & Hy). rewrite Forall_forall in IHd.
    now rewrite !plain_ascii_app, plain_encode_string, (IHd y Hy).
Qed.

(** X12: what the command writes is plain ASCII.  Whatever the findings
    hold (any code point, in the messages of exceptions, the version lines
    of tools, the paths), every file the command leaves, whole or
    unfinished, contains only printable ASCII characters and line feeds: the
    results are dumped with the default [ensure_ascii], so the file can be
    written in any encoding [open] selects. *)
Theorem artifact_is_plain_ascii : forall (w : World) (args : Args) (path content : str),
  In (path, content) (files (fst (run_main w args))) ->
  plain_ascii content = true.
Proof.
  intros w args path content Hin. rewrite fst_run_main in Hin.
  destruct (main_files w args (initial_process args))
    as [H|(path' & content' & _ & _ & _ & H4 & [rest H5] & _)].
  - rewrite H in Hin. destruct Hin.
  - rewrite H4 in Hin. cbn in Hin. destruct Hin as [Hin|[]]. injection Hin as <- <-.
    pose proof (plain_dumps_at
                  (Json.of_results
                     (results (scanner (fst (main w args (initial_process args)))))) 0) as Hp.
    fold (Json.dumps (Json.of_results
                        (results (scanner (fst (main w args (initial_process args))))))) in Hp.
    rewrite H5, plain_ascii_app in Hp. now apply andb_true_iff in Hp.
Qed.

(** A tool whose version line holds an accented letter, a euro sign and a
    pictograph. *)
Lemma artifact_is_plain_ascii_witness :
  let w := with_tools (fun _ => inl (0%Z, [233; 8364; 128512]%N)) unreachable_world in
  let args := mkArgs "localhost" 3000 (Some "out.json") in
  hd [] (info (results (scanner (fst (run_main w args)))))
  = "ffmpeg: " ++ [233; 8364; 128512]%N ++ " - Risk: CVE database check needed"
  /\ exists content,
       files (fst (run_main w args)) = [("out.json", content)]
       /\ plain_ascii content = true.
Proof.
  intros w args. split; [vm_compute; reflexivity|].
  eexists. split; [vm_compute; reflexivity|].
  apply (artifact_is_plain_ascii w args "out.json").
  vm_compute. left. reflexivity.
Defined.

(** ** The risk scorer *)

(** X13: the score and the tier never go down.  A Vulnerability finding
    adds 10 to the score and a Warning finding adds 3; results with a
    higher score never have a lower tier; results with any Vulnerability or Warning finding are not
    Low, and two Vulnerability findings alone make the tier High. *)
Theorem risk_is_monotone : forall r : Results,
  (forall v, risk_score (add_vulnerability v r) = risk_score r + 10)
  /\ (forall s, risk_score (add_warning s r) = risk_score r + 3)
  /\ (forall r2 : Results, risk_score r <= risk_score r2 ->
        (tier_rank (risk_tier (risk_score r))
         <= tier_rank (risk_tier (risk_score r2)))%nat)
  /\ (vulnerabilities r <> [] \/ warnings r <> [] -> risk_tier (risk_score r) <> Low)
  /\ ((2 <= length (vulnerabilities r))%nat -> risk_tier (risk_score r) = High).
Proof.
  intros r. unfold risk_score, risk_tier. repeat split.
  - intros v. cbn [add_vulnerability vulnerabilities warnings].
    rewrite length_app. cbn [length]. lia.
  - intros s. cbn [add_warning vulnerabilities warnings].
    rewrite length_app. cbn [length]. lia.
  - intros r2. fold (risk_score r) (risk_score r2). intros H.
    assert (0 <= risk_score r) by (unfold risk_score; lia).
    destruct (Z.eqb_spec (risk_score r) 0), (Z.ltb_spec (risk_score r) 20),
      (Z.eqb_spec (risk_score r2) 0), (Z.ltb_spec (risk_score r2) 20);
      cbn; lia.
  - intros H.
    assert (0 < Z.of_nat (length (vulnerabilities r)) * 10
                + Z.of_nat (length (warnings r)) * 3).
    { destruct H as [H|H];
        [destruct (vulnerabilities r) | destruct (warnings r)];
        try congruence; cbn [length]; lia. }
    destruct (Z.eqb_spec (Z.of_nat (length (vulnerabilities r)) * 10
                          + Z.of_nat (length (warnings r)) * 3) 0); [lia|].
    now destruct (_ <? 20).
  - intros H.
    destruct (Z.eqb_spec (Z.of_nat (length (vulnerabilities r)) * 10
                          + Z.of_nat (length (warnings r)) * 3) 0); [lia|].
    destruct (Z.ltb_spec (Z.of_nat (length (vulnerabilities r)) * 10
                          + Z.of_nat (length (warnings r)) * 3) 20); [lia|reflexivity].
Qed.

(** ** The info bucket of a completed scan *)

Lemma signaling_same_info (w : World) : preserves same_info (scan_signaling_server w).
Proof.
  apply (shape_scan_signaling_server same_info); unfold same_info;
    try reflexivity; intros; congruence.
Qed.

Lemma probe_dependency_returns (w : World) (entry : str * str) (p q : Process) :
  probe_dependency w entry p = (q, inl tt) -> dependency_handled w entry.
Proof.
  destruct entry as [dep risk].
  unfold dependency_handled, probe_dependency, try_except, bind, call. cbn [fst].
  destruct (subprocess_run w [dep; "--version"]) as [[returncode out]|e];
    [trivial|].
  cbn [raise]. destruct (is_TimeoutExpired e || is_FileNotFoundError e);
    [reflexivity | discriminate].
Qed.

Lemma dependency_loop_returns (w : World) (l : list (str * str)) :
  forall p q : Process,
  for_each l (probe_dependency w) p = (q, inl tt) -> Forall (dependency_handled w) l.
Proof.
  induction l as [|x t IH]; intros p q H; [constructor|].
  cbn [for_each] in H. unfold bind in H.
  destruct (probe_dependency w x p) as [p1 [[]|e]] eqn:E; [|discriminate].
  constructor; [exact (probe_dependency_returns w x p p1 E) | exact (IH p1 q H)].
Qed.

Lemma network_probe_returns (w : World) (p q : Process) :
  scan_network_security w p = (q, inl tt) ->
  exists i, info (results (scanner q)) = (info (results (scanner p)) ++ [i])
            /\ network_info i.
Proof.
  unfold scan_network_security. rewrite bind_print.
  unfold bind, self_target_host, self_target_port, try_except, call.
  cbn [scanner printed target_host target_port].
  destruct (requests_get w _) as [status|e].
  - unfold ret, when. destruct (status =? 200); cbn; intros H; injection H as <-;
      cbn; eexists; (split; [reflexivity|]); right; now eexists.
  - unfold raise. destruct (is_RequestException e);
      [|destruct (is_Exception e)]; cbn; intros H; try discriminate;
      injection H as <-; cbn; eexists; (split; [reflexivity|]).
    + now left.
    + right. now eexists.
Qed.

Lemma dependency_probe_deltas (w : World) (p : Process) :
  forall q, scan_system_dependencies w p = (q, inl tt) ->
  info (results (scanner q))
  = (info (results (scanner p)) ++ map (dependency_finding w) dependencies).
Proof.
  intros q H. unfold scan_system_dependencies in H. rewrite bind_print in H.
  pose proof (dependency_loop_returns w dependencies _ _ H) as Hh.
  rewrite (dependency_loop_handled w dependencies _ Hh) in H.
  injection H as <-. reflexivity.
Qed.

Lemma file_probe_same_info (w : World) (p : Process) :
  info (results (scanner (fst (scan_file_permissions w p)))) = info (results (scanner p)).
Proof.
  unfold scan_file_permissions. rewrite bind_print.
  destruct (file_loop_examined w critical_files
              (printed ["🔍 Scanning File Permissions..."] p))
    as (_ & _ & _ & _ & Hi & _).
  exact Hi.
Qed.

Lemma report_untouched (p : Process) :
  results (scanner (fst (generate_report p))) = results (scanner p).
Proof.
  destruct (preserves_generate_report untouched untouched_refl untouched_trans
              untouched_printed p) as [Hs _].
  now rewrite Hs.
Qed.

(** X14: the info bucket of a completed scan.  Whenever [run_scan]
    returns normally, whatever the target and the system did, it has added
    exactly seven Info findings, in this order: one for each of the five
    registered tools, one from the network probe ("No HTTPS endpoint found"
    or "TLS scan failed: ..."), and the notice of the authentication
    probe. *)
Theorem completed_scan_info : forall (w : World) (p q : Process),
  run_scan w p = (q, inl tt) ->
  exists i,
    network_info i
    /\ info (results (scanner q))
       = (info (results (scanner p))
            ++ map (dependency_finding w) dependencies
            ++ [i; "Authentication testing requires running instance"]).
Proof.
  intros w p q H. unfold run_scan in H. rewrite bind_print in H. unfold bind in H.
  set (p0 := printed ["🛡️  Starting SmolDesk Security Scan..."] p) in H.
  pose proof (signaling_same_info w p0) as H1. unfold same_info in H1.
  destruct (scan_signaling_server w p0) as [p1 [[]|e]]; [|discriminate].
  cbn [fst] in H1.
  destruct (scan_system_dependencies w p1) as [p2 [[]|e]] eqn:E2; [|discriminate].
  pose proof (dependency_probe_deltas w p1 p2 E2) as H2.
  pose proof (file_probe_same_info w p2) as H3.
  destruct (scan_file_permissions w p2) as [p3 [[]|e]]; [|discriminate].
  cbn [fst] in H3.
  destruct (scan_network_security w p3) as [p4 [[]|e]] eqn:E4; [|discriminate].
  destruct (network_probe_returns w p3 p4 E4) as (i & H4 & Hi).
  exists i. split; [exact Hi|].
  destruct (scan_authentication_security p4) as [p5 [[]|e]] eqn:E5; [|discriminate].
  pose proof (report_untouched p5) as H6. rewrite H in H6. cbn [fst] in H6.
  unfold scan_authentication_security in E5. rewrite bind_print in E5.
  injection E5 as <-.
  rewrite H6. cbn [map_results scanner results info add_info printed].
  rewrite H4, H3, H2, H1. subst p0. cbn [printed scanner].
  now rewrite <- !app_assoc.
Qed.

Lemma completed_scan_info_witness :
  length (info (results (scanner (fst (run_scan echo_world
                                         (initial_process default_args)))))) = 7%nat.
Proof.
  destruct (completed_scan_info echo_world (initial_process default_args)
              (fst (run_scan echo_world (initial_process default_args))))
    as (i & _ & ->).
  - vm_compute. reflexivity.
  - reflexivity.
Defined.

(** ** What a run can do *)

(** X15: a run only adds.  From any process, a run of [main] keeps the
    target host and port; every line of output and every finding that was
    there stays where it was, before all that the run adds; no file is
    removed, and every file other than the one at the output path holds
    what it held (the file at the output path is replaced when the run gets
    to open it).  This holds whether the run completes, fails or is
    interrupted. *)
Theorem run_only_adds : forall (w : World) (args : Args) (p : Process),
  let p' := fst (main w args p) in
  target_host (scanner p') = target_host (scanner p)
  /\ target_port (scanner p') = target_port (scanner p)
  /\ (exists added, stdout p' = stdout p ++ added)
  /\ (exists added, map fst (files p') = map fst (files p) ++ added)
  /\ (exists added, vulnerabilities (results (scanner p'))
                    = vulnerabilities (results (scanner p)) ++ added)
  /\ (exists added, warnings (results (scanner p'))
                    = warnings (results (scanner p)) ++ added)
  /\ (exists added, info (results (scanner p'))
                    = info (results (scanner p)) ++ added)
  /\ (exists added, passed (results (scanner p'))
                    = passed (results (scanner p)) ++ added)
  /\ (forall path : str,
        output_given args <> Some path ->
        file_get path (files p') = file_get path (files p)).
Proof.
  intros w args p. cbv zeta.
  destruct (main_extends w args p) as (H1 & H2 & H3 & H4 & H5 & H6 & H7 & H8).
  repeat (split; [assumption|]).
  intros path Hp.
  destruct (main_files w args p) as [H|(path' & content & Ho & _ & _ & Hf & _)].
  - now rewrite H.
  - rewrite Hf. apply file_get_set_other. congruence.
Qed.

(** A file that is there before the run is kept; the output file is
    replaced, not added a second time. *)
Lemma run_only_adds_witness :
  let args := mkArgs "localhost" 3000 (Some "out.json") in
  let p := mkProcess (new_scanner "localhost" 3000) []
             [("notes.txt", "keep"); ("out.json", "old")] in
  file_get "notes.txt" (files (fst (main unreachable_world args p))) = Some "keep"
  /\ map fst (files (fst (main unreachable_world args p))) = ["notes.txt"; "out.json"]
  /\ file_get "out.json" (files (fst (main unreachable_world args p))) <> Some "old".
Proof.
  intros args p. split; [|split].
  - rewrite (proj2 (proj2 (proj2 (proj2 (proj2 (proj2 (proj2 (proj2
               (run_only_adds unreachable_world args p)))))))) "notes.txt").
    + reflexivity.
    + discriminate.
  - vm_compute. reflexivity.
  - vm_compute. discriminate.
Defined.

(** ** The highest score of a scan *)

(** The entries [vs] are what a step added to the vulnerabilities. *)
Ltac sent_case vs :=
  split; [reflexivity|]; exists vs; rewrite ?app_nil_r; cbn [length];
  split; [reflexivity|]; split; [lia|]; intros ? ?; try discriminate; lia.

Lemma probe_payload_sent (w : World) (payload : str) (p : Process) :
  sent_at_most 1 (snd (probe_payload w payload p)) p (fst (probe_payload w payload p)).
Proof.
  unfold probe_payload, bind, try_except, call_, call, sent_at_most.
  destruct (ws_send w payload) as [e|]; cbn [raise ret fst snd].
  - sent_case (@nil pydict).
  - destruct (ws_recv w payload) as [[response|data]|e]; cbn [raise ret fst snd].
    + destruct (Str.contains "error" (Str.lower response)); cbn.
      * sent_case (@nil pydict).
      * sent_case [input_validation_finding payload].
    + cbn. sent_case (@nil pydict).
    + destruct (is_AsyncioTimeoutError e); cbn.
      * sent_case (@nil pydict).
      * sent_case (@nil pydict).
Qed.

Lemma payload_loop_sent (w : World) (l : list str) : forall p : Process,
  l <> [] ->
  sent_at_most (length l) (snd (for_each l (probe_payload w) p)) p
    (fst (for_each l (probe_payload w) p)).
Proof.
  induction l as [|x t IH]; intros p Hl; [congruence|].
  cbn [for_each length]. unfold bind.
  pose proof (probe_payload_sent w x p) as Hx.
  destruct (probe_payload w x p) as [q [[]|e]]; cbn [fst snd] in *.
  - destruct Hx as (Hw & vs & Hv & Hn & _).
    destruct t as [|y t'].
    + cbn [for_each ret fst snd length]. split; [exact Hw|]. exists vs.
      repeat split; try assumption. discriminate.
    + destruct (IH q ltac:(discriminate)) as (Hw' & vs' & Hv' & Hn' & Hlt').
      split; [congruence|]. exists (vs ++ vs').
      rewrite Hv', Hv, <- app_assoc, length_app. repeat split; [lia|].
      intros e He. specialize (Hlt' e He). lia.
  - destruct Hx as (Hw & vs & Hv & Hn & Hlt). split; [exact Hw|]. exists vs.
    repeat split; [assumption | lia |]. intros e' _. specialize (Hlt e eq_refl). lia.
Qed.

(** The signaling probe adds at most 50 to the score. *)
Lemma signaling_score (w : World) (p : Process) :
  risk_score (results (scanner (fst (scan_signaling_server w p))))
  <= risk_score (results (scanner p)) + 50.
Proof.
  unfold scan_signaling_server. rewrite bind_print.
  unfold bind at 1 2. unfold self_target_host, self_target_port. cbn [fst snd].
  set (p0 := printed ["🔍 Scanning Signaling Server..."] p).
  change (results (scanner p)) with (results (scanner p0)).
  unfold try_except, bind, call_.
  destruct (ws_connect w _) as [e|]; cbn [raise ret].
  - destruct (is_Exception e); cbn; unfold risk_score; cbn;
      rewrite ?length_app; cbn [length]; lia.
  - pose proof (payload_loop_sent w malicious_payloads p0 ltac:(discriminate)) as Hl.
    change (length malicious_payloads) with 5%nat in Hl.
    destruct (for_each malicious_payloads (probe_payload w) p0) as [q [[]|e]];
      cbn [fst snd] in Hl; destruct Hl as (Hw & vs & Hv & Hn & Hlt);
      subst p0; cbn [printed scanner] in Hw, Hv.
    + cbn. unfold risk_score. cbn. rewrite Hw, Hv, length_app. lia.
    + specialize (Hlt e eq_refl).
      destruct (is_Exception e); cbn; unfold risk_score; cbn;
        rewrite Hw, Hv, ?length_app; cbn [length]; lia.
Qed.

Lemma dependency_score (w : World) (p : Process) :
  risk_score (results (scanner (fst (scan_system_dependencies w p))))
  = risk_score (results (scanner p)).
Proof.
  destruct (shape_scan_system_dependencies only_info_added only_info_added_refl
              only_info_added_trans only_info_added_printed only_info_added_info w p)
    as (_ & _ & _ & Hv & Hw & _).
  unfold risk_score. now rewrite Hv, Hw.
Qed.

Lemma file_score (w : World) (p : Process) :
  risk_score (results (scanner (fst (scan_file_permissions w p))))
  <= risk_score (results (scanner p)) + 40.
Proof.
  unfold scan_file_permissions. rewrite bind_print.
  destruct (file_loop_examined w critical_files
              (printed ["🔍 Scanning File Permissions..."] p))
    as (_ & _ & _ & _ & _ & vs & ws & ps & Hv & Hw & _ & Hn & _).
  change (length critical_files) with 4%nat in Hn.
  unfold risk_score. rewrite Hv, Hw, !length_app. cbn [printed scanner]. lia.
Qed.

Lemma network_score (w : World) (p : Process) :
  risk_score (results (scanner (fst (scan_network_security w p))))
  <= risk_score (results (scanner p)) + 3.
Proof.
  unfold scan_network_security. rewrite bind_print.
  unfold bind, self_target_host, self_target_port, try_except, call.
  cbn [scanner printed target_host target_port].
  destruct (requests_get w _) as [status|e].
  - unfold ret, when. destruct (status =? 200); cbn; unfold risk_score; cbn;
      rewrite ?length_app; cbn [length]; lia.
  - unfold raise. destruct (is_RequestException e);
      [|destruct (is_Exception e)]; cbn; unfold risk_score; cbn; lia.
Qed.

(** X16: the highest score of a scan.  A scan that completes adds at most
    93 to the risk score: at most 50 from the signaling probe, 40 from the
    file permission probe and 3 from the network probe, and nothing from
    the other probes or the report.  The bound is reached: a target that
    echoes every payload, has the four checked paths at mode 777 and
    answers the HTTPS request with 200 scores exactly 93. *)
Theorem scan_score_bound :
  (forall (w : World) (p q : Process),
      run_scan w p = (q, inl tt) ->
      risk_score (results (scanner q)) <= risk_score (results (scanner p)) + 93)
  /\ (snd (run_scan worst_world (initial_process default_args)) = inl tt
      /\ risk_score (results (scanner (fst (run_scan worst_world
                                              (initial_process default_args))))) = 93).
Proof.
  split; [|vm_compute; split; reflexivity]. intros w p q H.
  unfold run_scan in H. rewrite bind_print in H. unfold bind in H.
  set (p0 := printed ["🛡️  Starting SmolDesk Security Scan..."] p) in H.
  pose proof (signaling_score w p0) as H1.
  destruct (scan_signaling_server w p0) as [p1 [[]|e]]; [|discriminate].
  pose proof (dependency_score w p1) as H2.
  destruct (scan_system_dependencies w p1) as [p2 [[]|e]]; [|discriminate].
  pose proof (file_score w p2) as H3.
  destruct (scan_file_permissions w p2) as [p3 [[]|e]]; [|discriminate].
  pose proof (network_score w p3) as H4.
  destruct (scan_network_security w p3) as [p4 [[]|e]]; [|discriminate].
  destruct (scan_authentication_security p4) as [p5 [[]|e]] eqn:E5; [|discriminate].
  pose proof (report_untouched p5) as H6. rewrite H in H6. cbn [fst] in *.
  unfold scan_authentication_security in E5. rewrite bind_print in E5.
  injection E5 as <-. rewrite H6.
  change (risk_score (results (scanner p0))) with (risk_score (results (scanner p))) in H1.
  assert (E : risk_score
                (results (scanner
                   (map_results (add_info "Authentication testing requires running instance")
                      (printed ["🔍 Scanning Authentication Security..."] p4))))
              = risk_score (results (scanner p4))) by reflexivity.
  rewrite E. lia.
Qed.

Lemma scan_score_bound_witness :
  risk_score (results (scanner (fst (run_scan echo_world
                                       (initial_process default_args))))) <= 93.
Proof.
  refine (proj1 scan_score_bound echo_world (initial_process default_args)
            (fst (run_scan echo_world (initial_process default_args))) _).
  vm_compute. reflexivity.
Defined.
